(** * Bundesliga coach RAG chatbot: extraction, club resolution, prompt assembly

    A shallow embedding of the query pipeline of the chatbot
    ([main.py], [src/entity_extractor.py], [src/prompt_builder.py]) and the
    properties its specification states about it, followed by the two
    clients ([src/wikidata_client.py], [src/wikipedia_client.py] and its
    alternative), the console loop of [main.py] and what the code shows
    about them.

    Python [str] values are modelled by [string]; the character tables
    ([str.lower], [str.strip], the classes [\s] and [\w] of [re]) are
    Python's on the code points 0..127.  Code points above 127 are kept as
    they are and belong to no class: the development is about ASCII text. *)

From Stdlib Require Import Bool Arith Lia List Ascii String.
Import ListNotations.
Local Open Scope string_scope.

(** ** Python strings *)

Module PyStr.

Definition nl : string := String (ascii_of_nat 10) "".

Definition code (c : ascii) : nat := nat_of_ascii c.

Definition between (lo hi : nat) (c : ascii) : bool :=
  ((lo <=? code c)%nat && (code c <=? hi)%nat)%bool.

(** [str.isspace] on ASCII: TAB, LF, VT, FF, CR, FS, GS, RS, US and the space. *)
Definition is_space (c : ascii) : bool :=
  between 9 13 c || between 28 32 c.

(** The class [\w] on ASCII: letters, digits and the underscore. *)
Definition is_word (c : ascii) : bool :=
  between 48 57 c || between 65 90 c || between 97 122 c || (code c =? 95)%nat.

Definition lower_char (c : ascii) : ascii :=
  if between 65 90 c then ascii_of_nat (code c + 32) else c.

(** [s.lower()] *)
Fixpoint lower (s : string) : string :=
  match s with
  | EmptyString => EmptyString
  | String c s' => String (lower_char c) (lower s')
  end.

Fixpoint lstrip (s : string) : string :=
  match s with
  | EmptyString => EmptyString
  | String c s' => if is_space c then lstrip s' else s
  end.

Fixpoint rstrip (s : string) : string :=
  match s with
  | EmptyString => EmptyString
  | String c s' =>
      match rstrip s' with
      | EmptyString => if is_space c then EmptyString else String c EmptyString
      | r => String c r
      end
  end.

(** [s.strip()] *)
Definition strip (s : string) : string := rstrip (lstrip s).

(** [hay.startswith(needle)] *)
Fixpoint startswith (needle hay : string) : bool :=
  match needle, hay with
  | EmptyString, _ => true
  | String a n', String b h' => Ascii.eqb a b && startswith n' h'
  | String _ _, EmptyString => false
  end.

(** [needle in hay] *)
Fixpoint contains (needle hay : string) : bool :=
  startswith needle hay ||
  match hay with
  | EmptyString => false
  | String _ h' => contains needle h'
  end.

(** [hay.endswith(needle)] *)
Fixpoint endswith (needle hay : string) : bool :=
  String.eqb needle hay ||
  match hay with
  | EmptyString => false
  | String _ h' => endswith needle h'
  end.

(** [sep.join(parts)] *)
Fixpoint join (sep : string) (parts : list string) : string :=
  match parts with
  | [] => ""
  | [p] => p
  | p :: rest => p ++ sep ++ join sep rest
  end.

(** Truth value of an [Optional[str]]: [None] and the empty string are false. *)
Definition truthy (o : option string) : bool :=
  match o with
  | None | Some EmptyString => false
  | Some _ => true
  end.

(** Truth value of a [str]: only the empty string is false. *)
Definition nonempty (s : string) : bool :=
  match s with
  | EmptyString => false
  | String _ _ => true
  end.

(** [s.split(sep)] for a separator of one character: the pieces between the
    separators, one more than there are separators. *)
Fixpoint split (sep : ascii) (s : string) : list string :=
  match s with
  | EmptyString => [EmptyString]
  | String c s' =>
      if Ascii.eqb c sep then EmptyString :: split sep s'
      else
        match split sep s' with
        | piece :: pieces => String c piece :: pieces
        | [] => [String c EmptyString]
        end
  end.

(** [pieces[-1]] of a list that [split] returned. *)
Definition last_piece (pieces : list string) : string :=
  List.last pieces EmptyString.

(** [s * n] *)
Fixpoint times (s : string) (n : nat) : string :=
  match n with
  | O => EmptyString
  | S n' => s ++ times s n'
  end.

(** A [dict] with string keys, as the list of its items; [d.get(key)]. *)
Fixpoint dict_get {V : Type} (d : list (string * V)) (key : string) : option V :=
  match d with
  | [] => None
  | (k, v) :: d' => if String.eqb k key then Some v else dict_get d' key
  end.

End PyStr.

(** ** The fragment of [re] used by the extractor

    Python's [re] is a backtracking matcher: quantifiers are greedy and give
    characters back one at a time, alternatives are tried in order, and
    [re.search] returns the match of the leftmost start position that has
    one.  The patterns of the extractor use literals, [\s+], [\w+], an
    optional item and one capturing group. *)

Module Re.
Import PyStr.

Inductive regex : Type :=
| Lit (s : string)                 (* literal text *)
| PlusCls (cls : ascii -> bool)    (* one or more characters of a class, greedy *)
| Opt (r : regex)                  (* r?, greedy *)
| Seq (r1 r2 : regex)
| Group (r : regex).               (* capturing group 1 *)

(** A match object: the whole match and group 1 ([None] when the group took
    no part in the match). *)
Record Match : Type := mkMatch { group0 : string; group1 : option string }.

(** The text of [s] in front of its suffix [rest]. *)
Fixpoint consumed (s : string) (n : nat) : string :=
  match n, s with
  | S n', String c s' => String c (consumed s' n')
  | _, _ => EmptyString
  end.

Definition taken (s rest : string) : string :=
  consumed s (String.length s - String.length rest).

Fixpoint strip_lit (lit s : string) : option string :=
  match lit, s with
  | EmptyString, _ => Some s
  | String a l', String b s' => if Ascii.eqb a b then strip_lit l' s' else None
  | String _ _, EmptyString => None
  end.

Section Backtrack.
Context {R : Type}.

(** Zero or more characters of the class: the longest run first, then one
    character less at a time. *)
Fixpoint star_cls (cls : ascii -> bool) (s : string)
         (k : string -> option R) : option R :=
  match s with
  | String c s' =>
      if cls c then
        match star_cls cls s' k with
        | Some m => Some m
        | None => k s
        end
      else k s
  | EmptyString => k s
  end.

Definition plus_cls (cls : ascii -> bool) (s : string)
           (k : string -> option R) : option R :=
  match s with
  | String c s' => if cls c then star_cls cls s' k else None
  | EmptyString => None
  end.

(** [rmatch r s g k]: match [r] at the front of [s], group 1 being [g] so
    far, and hand the rest of the text to the continuation [k]; when [k]
    fails the next way of matching [r] is tried. *)
Fixpoint rmatch (r : regex) (s : string) (g : option string)
         (k : string -> option string -> option R) : option R :=
  match r with
  | Lit l =>
      match strip_lit l s with
      | Some rest => k rest g
      | None => None
      end
  | PlusCls cls => plus_cls cls s (fun rest => k rest g)
  | Opt r' =>
      match rmatch r' s g k with
      | Some m => Some m
      | None => k s g
      end
  | Seq r1 r2 => rmatch r1 s g (fun rest g' => rmatch r2 rest g' k)
  | Group r' => rmatch r' s g (fun rest _ => k rest (Some (taken s rest)))
  end.
End Backtrack.

(** [re.match]: a match that starts at the front of [s]. *)
Definition match_here (r : regex) (s : string) : option Match :=
  rmatch r s None (fun rest g => Some (mkMatch (taken s rest) g)).

(** [re.search(r, s)]: the leftmost start position that matches. *)
Fixpoint search (r : regex) (s : string) : option Match :=
  match match_here r s with
  | Some m => Some m
  | None =>
      match s with
      | EmptyString => None
      | String _ s' => search r s'
      end
  end.

(** Every character of [s] is in the class. *)
Fixpoint all_chars (P : ascii -> bool) (s : string) : bool :=
  match s with
  | EmptyString => true
  | String c s' => P c && all_chars P s'
  end.

(** Does the pattern contain a capturing group? *)
Fixpoint has_group (r : regex) : bool :=
  match r with
  | Lit _ | PlusCls _ => false
  | Opt r' => has_group r'
  | Seq r1 r2 => has_group r1 || has_group r2
  | Group _ => true
  end.

(** Patterns whose group is one [cls+] that every match goes through. *)
Fixpoint captures_token (r : regex) : bool :=
  match r with
  | Group (PlusCls _) => true
  | Seq r1 r2 =>
      (captures_token r1 && negb (has_group r2))
      || (negb (has_group r1) && captures_token r2)
  | _ => false
  end.

End Re.

(** ** [src/entity_extractor.py] *)

Module EntityExtractor.
Import PyStr Re.

(** [coach(?:ing)?\s+(\w+)] *)
Definition pat_coaching : regex :=
  Seq (Lit "coach") (Seq (Opt (Lit "ing")) (Seq (PlusCls is_space) (Group (PlusCls is_word)))).

(** [about\s+(\w+)] *)
Definition pat_about : regex :=
  Seq (Lit "about") (Seq (PlusCls is_space) (Group (PlusCls is_word))).

(** [(\w+)s?\s+manager] *)
Definition pat_manager : regex :=
  Seq (Group (PlusCls is_word)) (Seq (Opt (Lit "s")) (Seq (PlusCls is_space) (Lit "manager"))).

(** [for\s+(\w+)] *)
Definition pat_for : regex :=
  Seq (Lit "for") (Seq (PlusCls is_space) (Group (PlusCls is_word))).

(** [in\s+(\w+)] *)
Definition pat_in : regex :=
  Seq (Lit "in") (Seq (PlusCls is_space) (Group (PlusCls is_word))).

(** The patterns in the order in which [_extract_entity_logic] tries them. *)
Definition patterns : list regex :=
  [pat_coaching; pat_about; pat_manager; pat_for; pat_in].

Definition _extract_entity_logic (normalized_question : string) : option string :=
  match search pat_coaching normalized_question with
  | Some m => group1 m
  | None =>
  match search pat_about normalized_question with
  | Some m => group1 m
  | None =>
  match search pat_manager normalized_question with
  | Some m => group1 m
  | None =>
  match search pat_for normalized_question with
  | Some m => group1 m
  | None =>
  match search pat_in normalized_question with
  | Some m => group1 m
  | None => None
  end end end end end.

Definition extract_city (user_question : string) : option string :=
  let normalized_question := strip (lower user_question) in
  _extract_entity_logic normalized_question.

End EntityExtractor.

(** ** [src/prompt_builder.py] *)

Module PromptBuilder.
Import PyStr.

Definition _get_system_prompt : string :=
  join nl
    ["SYSTEM PROMPT:";
     "You are a helpful assistant an expert in Germany`s 1. Bundesliga football (soccer).";
     "You answer questions about coaches of clubs in Germany's 1. Bundesliga.";
     "You must use only the information provided in the retrieved context below. You must never assume.";
     "Be concise but informative in your responses.";
     "Provide the coach's name and relevant information about them."].

(** The sentence that stands for a biography that could not be retrieved. *)
Definition no_biography : string :=
  "Coach Information: No additional biographical information available from Wikipedia.".

Definition _build_context (club_name city coach_name : string)
           (coach_intro : option string) : string :=
  let context_parts :=
    ["City: " ++ city;
     "Club: " ++ club_name;
     "Current Coach: " ++ coach_name] in
  let appended :=
    match coach_intro with
    | Some (String _ _ as intro) =>
        nl ++ "Coach Information from Wikipedia:" ++ nl ++ intro
    | Some EmptyString | None => nl ++ no_biography
    end in
  join nl (List.app context_parts [appended]).

Definition closing_line : string :=
  "Please answer the user's question using the provided context.".

Definition build_prompt (user_question club_name city coach_name : string)
           (coach_intro : option string) : string :=
  let system_prompt := _get_system_prompt in
  let context := _build_context club_name city coach_name coach_intro in
  system_prompt ++ nl ++
  nl ++
  "RETRIEVED CONTEXT:" ++ nl ++
  context ++ nl ++
  nl ++
  "USER QUESTION:" ++ nl ++
  user_question ++ nl ++
  nl ++
  closing_line.

End PromptBuilder.

(** ** [main.py]: the orchestrator *)

Module Chatbot.
Import PyStr EntityExtractor PromptBuilder.

(** A club of the roster: the dict with the keys [club_name], [city],
    [club_uri] and [club_qid] that [_process_club_results] builds. *)
Record Club : Type := mkClub {
  club_name : string;
  city : string;
  club_uri : string;
  club_qid : string
}.

(** The dict with the keys [name] and [qid] of [_process_coach_results]. *)
Record Coach : Type := mkCoach {
  name : string;
  qid : string
}.

(** A Python exception, with its message. *)
Inductive exn : Type := Exception (msg : string).

(** What a call gives: a value, or an exception on its way up. *)
Inductive result (A : Type) : Type :=
| Return (a : A)
| Raise (e : exn).
Arguments Return {A} a.
Arguments Raise {A} e.

(** The requests that leave the process. *)
Inductive request : Type :=
| GetBundesligaClubs
| GetCoachForClub (qid : string)
| GetCoachIntro (coach_name : string).

(** The session: the roster cache of the chatbot object and the requests
    sent so far, oldest first. *)
Record Session : Type := mkSession {
  clubs_cache : option (list Club);
  sent : list request
}.

(** The two clients.  What a service answers may depend on everything that
    was asked before; [get_coach_for_club] and [get_bundesliga_clubs] raise
    on a failed query.  [get_coach_intro] is given the same freedom, although
    the Wikipedia client catches its own errors and answers [None]. *)
Record Services : Type := mkServices {
  get_bundesliga_clubs : list request -> result (list Club);
  get_coach_for_club : list request -> string -> result (option Coach);
  get_coach_intro : list request -> string -> result (option string)
}.

(** Computations of the chatbot: they read and write the session and end in
    a value or in an exception; the session survives an exception. *)
Definition M (A : Type) : Type := Session -> result A * Session.

Definition ret {A} (a : A) : M A := fun st => (Return a, st).

Definition bind {A B} (m : M A) (f : A -> M B) : M B :=
  fun st =>
    match m st with
    | (Return a, st') => f a st'
    | (Raise e, st') => (Raise e, st')
    end.

(** [try: body except Exception as e: handler] *)
Definition try_except {A} (body : M A) (handler : exn -> M A) : M A :=
  fun st =>
    match body st with
    | (Return a, st') => (Return a, st')
    | (Raise e, st') => handler e st'
    end.

Definition get_cache : M (option (list Club)) :=
  fun st => (Return (clubs_cache st), st).

Definition set_cache (c : option (list Club)) : M unit :=
  fun st => (Return tt, mkSession c (sent st)).

(** Send a request and wait for its answer. *)
Definition call {A} (r : request) (answer : list request -> result A) : M A :=
  fun st => (answer (sent st), mkSession (clubs_cache st) (sent st ++ [r])).

Notation "x <- m ;; k" := (bind m (fun x => k))
  (at level 61, m at next level, right associativity).

(** The loop of the special case: the first club with "pauli" in its name. *)
Fixpoint find_pauli (clubs : list Club) : option Club :=
  match clubs with
  | [] => None
  | club :: rest =>
      if contains "pauli" (lower (club_name club)) then Some club
      else find_pauli rest
  end.

(** The loop of the normal case. *)
Fixpoint find_by_city_or_name (city_identifier : string) (clubs : list Club)
  : option Club :=
  match clubs with
  | [] => None
  | club :: rest =>
      let club_city_lower := lower (city club) in
      let club_name_lower := lower (club_name club) in
      if contains city_identifier club_city_lower
         || contains club_city_lower city_identifier then Some club
      else if contains city_identifier club_name_lower then Some club
      else find_by_city_or_name city_identifier rest
  end.

Definition find_club_by_city (cache : option (list Club))
           (city_identifier : string) : option Club :=
  match cache with
  | None | Some [] => None
  | Some clubs =>
      match (if city_identifier =? "pauli" then find_pauli clubs else None) with
      | Some club => Some club
      | None => find_by_city_or_name city_identifier clubs
      end
  end.

Definition _format_error_response (error_message : string) : string :=
  join nl
    ["ERROR: " ++ error_message;
     "";
     "Dear user, the Germany`s 1. Bundesliga RAG-Chatbot system was unable to retrieve the necessary information to answer your question.";
     "Please check your input and try again.";
     "";
     "Examples of valid questions:";
     "  - Who is coaching Berlin?";
     "  - What about munich?";
     "  - Who is heidenheims manager?";
     "  - Who is it for Pauli?"].

Definition msg_no_city : string :=
  "Dear user, I could not identify a city or club in your question. Please, use the required question format and specify which city or club you're asking about.".

Definition msg_no_club (city_identifier : string) : string :=
  "Dear user, I could not find a Bundesliga club for '" ++ city_identifier ++
  "'. Please, use the required question format or check the city name.".

Definition msg_no_coach (club_name : string) : string :=
  "Could not find current coach information for " ++ club_name ++
  ". The data may not be available in Wikidata.".

Definition msg_unexpected : string :=
  "Dear user, an unexpected error occurred while processing your question. Please try again.".

Section Orchestrator.
Variable net : Services.

Definition initialize_clubs_data : M bool :=
  try_except
    (clubs <- call GetBundesligaClubs (get_bundesliga_clubs net) ;;
     _ <- set_cache (Some clubs) ;;
     match clubs with
     | [] => ret false
     | _ :: _ => ret true
     end)
    (fun _ => _ <- set_cache None ;; ret false).

Definition process_query (user_question : string) : M string :=
  try_except
    (let city_identifier := extract_city user_question in
     if negb (truthy city_identifier) then
       ret (_format_error_response msg_no_city)
     else
       match city_identifier with
       | None => ret (_format_error_response msg_no_city)
       | Some city_identifier =>
           cache <- get_cache ;;
           match find_club_by_city cache city_identifier with
           | None => ret (_format_error_response (msg_no_club city_identifier))
           | Some club_info =>
               coach_info <- call (GetCoachForClub (club_qid club_info))
                                  (fun h => get_coach_for_club net h (club_qid club_info)) ;;
               match coach_info with
               | None =>
                   ret (_format_error_response (msg_no_coach (club_name club_info)))
               | Some coach_info =>
                   coach_intro <- call (GetCoachIntro (name coach_info))
                                       (fun h => get_coach_intro net h (name coach_info)) ;;
                   ret (build_prompt user_question (club_name club_info)
                          (city club_info) (name coach_info) coach_intro)
               end
           end
       end)
    (fun _ => ret (_format_error_response msg_unexpected)).
End Orchestrator.

End Chatbot.

(** ** Specification vocabulary *)

Module Spec.
Import PyStr PromptBuilder Chatbot.

(** [in_order parts text]: the parts occur in [text] verbatim, one after the
    other, without overlap. *)
Fixpoint in_order (parts : list string) (text : string) : Prop :=
  match parts with
  | [] => True
  | p :: rest =>
      exists before after, text = before ++ p ++ after /\ in_order rest after
  end.

(** What the context block shows for the biography. *)
Definition biography_or_sentence (coach_intro : option string) : string :=
  match coach_intro with
  | Some (String _ _ as intro) => intro
  | Some EmptyString | None => no_biography
  end.

(** The block of the context that carries the biography. *)
Definition biography_block (coach_intro : option string) : string :=
  match coach_intro with
  | Some (String _ _ as intro) => "Coach Information from Wikipedia:" ++ nl ++ intro
  | Some EmptyString | None => no_biography
  end.

(** The test of the special case of [find_club_by_city]. *)
Definition has_pauli (club : Club) : bool :=
  contains "pauli" (lower (club_name club)).

(** The city tests of the normal case of [find_club_by_city]. *)
Definition city_matches (city_identifier : string) (club : Club) : bool :=
  contains city_identifier (lower (city club))
  || contains (lower (city club)) city_identifier.

(** A text of ASCII characters: on these the tables of [PyStr] are those
    of Python. *)
Definition is_ascii (s : string) : bool :=
  Re.all_chars (fun c => code c <? 128)%nat s.

(** Patterns that cannot match without a run of white space. *)
Inductive has_spaces : Re.regex -> Prop :=
| spaces_here (r : Re.regex) : has_spaces (Re.Seq (Re.PlusCls is_space) r)
| spaces_later (r1 r2 : Re.regex) : has_spaces r2 -> has_spaces (Re.Seq r1 r2).

(** The three tests of the normal case of [find_club_by_city]. *)
Definition club_matches (city_identifier : string) (club : Club) : bool :=
  city_matches city_identifier club
  || contains city_identifier (lower (club_name club)).

(** What [_process_club_results] lets through: name, city and identifier
    are not empty, the identifier has no slash and ends the URI. *)
Definition well_formed_club (club : Club) : Prop :=
  club_name club <> "" /\ city club <> "" /\ club_qid club <> "" /\
  contains "/" (club_qid club) = false /\
  endswith (club_qid club) (club_uri club) = true.

(** Steps 1 and 2 of [process_query]: the club a question resolves to. *)
Definition resolve_question (cache : option (list Club)) (question : string)
  : option Club :=
  match EntityExtractor.extract_city question with
  | Some city_identifier => find_club_by_city cache city_identifier
  | None => None
  end.

End Spec.

(** ** A session to run the scenarios of the specification in *)

Module Scenario.
Import PyStr Chatbot.

Definition union_berlin : Club :=
  mkClub "1. FC Union Berlin" "Berlin"
         "http://www.wikidata.org/entity/Q141971" "Q141971".

Definition st_pauli : Club :=
  mkClub "FC St. Pauli" "Hamburg"
         "http://www.wikidata.org/entity/Q155730" "Q155730".

Definition hamburger_sv : Club :=
  mkClub "Hamburger SV" "Hamburg"
         "http://www.wikidata.org/entity/Q51974" "Q51974".

(** A club without "pauli" in its name whose city is the quarter itself. *)
Definition quarter_club : Club :=
  mkClub "SC Millerntor" "St. Pauli"
         "http://www.wikidata.org/entity/Q0" "Q0".

Definition baumgart : Coach := mkCoach "Steffen Baumgart" "Q66432".

Definition baumgart_bio : string :=
  "Steffen Baumgart is a German football manager...".

(** Every club is coached by Baumgart; the encyclopedia knows nobody. *)
Definition quiet_services : Services :=
  mkServices (fun _ => Return [union_berlin; hamburger_sv; st_pauli])
             (fun _ _ => Return (Some baumgart))
             (fun _ _ => Return None).

Definition ready : Session :=
  mkSession (Some [union_berlin; hamburger_sv; st_pauli]) [].

End Scenario.

(** ** [src/wikidata_client.py]

    A response is what [SPARQLWrapper] hands back for the JSON format of
    SPARQL 1.1: an object with an optional member [results], which has an
    optional member [bindings], a list of rows; a row maps a variable to an
    object whose members ([type], [value], ...) are strings.  On such rows
    nothing in the body of the loops can raise, so their handlers are left
    out. *)

Module WikidataClient.
Import PyStr Chatbot.

Definition Term : Type := list (string * string).
Definition Binding : Type := list (string * Term).

Record Results : Type := mkResults { bindings : option (list Binding) }.
Record Response : Type := mkResponse { results : option Results }.

(** [binding.get(var, {}).get('value', '')] *)
Definition value_of (binding : Binding) (var : string) : string :=
  match dict_get binding var with
  | Some term =>
      match dict_get term "value" with
      | Some v => v
      | None => ""
      end
  | None => ""
  end.

(** [uri.split('/')[-1] if uri else ''] *)
Definition qid_of_uri (uri : string) : string :=
  if nonempty uri then last_piece (split "/" uri) else "".

(** The body of the loop of [_process_club_results]: the club of a row, or
    nothing when the row is skipped. *)
Definition club_of_binding (binding : Binding) : option Club :=
  let club_uri := value_of binding "club" in
  let club_qid := qid_of_uri club_uri in
  let club_name := value_of binding "clubLabel" in
  let city_name := value_of binding "cityLabel" in
  if nonempty club_name && nonempty club_qid then
    Some (mkClub club_name
                 (if nonempty city_name then city_name else "Unknown")
                 club_uri club_qid)
  else None.

Fixpoint clubs_of_bindings (rows : list Binding) : list Club :=
  match rows with
  | [] => []
  | binding :: rest =>
      match club_of_binding binding with
      | Some club_info => club_info :: clubs_of_bindings rest
      | None => clubs_of_bindings rest
      end
  end.

Definition _process_club_results (response : Response) : list Club :=
  match results response with
  | None => []
  | Some r =>
      match bindings r with
      | None => []
      | Some rows => clubs_of_bindings rows
      end
  end.

Definition _process_coach_results (response : Response) : option Coach :=
  match results response with
  | None => None
  | Some r =>
      match bindings r with
      | None => None
      | Some [] => None
      | Some (binding :: _) =>
          let coach_name := value_of binding "coachLabel" in
          let coach_uri := value_of binding "coach" in
          let coach_qid := qid_of_uri coach_uri in
          if nonempty coach_name then Some (mkCoach coach_name coach_qid)
          else None
      end
  end.

(** The two queries; the second one is for the head coach of a club. *)
Inductive query : Type :=
| ClubsQuery
| CoachQuery (club_qid : string).

(** The endpoint: what [self.sparql.query().convert()] gives for a query,
    after the requests sent so far. *)
Definition Endpoint : Type := list request -> query -> result Response.

(** [get_bundesliga_clubs]: an error of the query is logged and raised
    again. *)
Definition get_bundesliga_clubs (endpoint : Endpoint) (history : list request)
  : result (list Club) :=
  match endpoint history ClubsQuery with
  | Return response => Return (_process_club_results response)
  | Raise e => Raise e
  end.

Definition get_coach_for_club (endpoint : Endpoint) (history : list request)
           (club_qid : string) : result (option Coach) :=
  match endpoint history (CoachQuery club_qid) with
  | Return response => Return (_process_coach_results response)
  | Raise e => Raise e
  end.

End WikidataClient.

(** ** [src/wikipedia_client.py]

    The answer of the API, as far as the client reads it: an optional member
    [query] with an optional member [pages], the pages by their id in the
    order of the answer; of a page the members that are strings. *)

Module WikipediaClient.
Import PyStr Chatbot.

Definition PageData : Type := list (string * string).

Record Query : Type := mkQuery { pages : option (list (string * PageData)) }.
Record Data : Type := mkData { query : option Query }.

(** The loop over [pages.items()]. *)
Fixpoint intro_of_pages (items : list (string * PageData)) : option string :=
  match items with
  | [] => None
  | (page_id, page_data) :: rest =>
      if String.eqb page_id "-1" then None
      else
        let extract :=
          match dict_get page_data "extract" with
          | Some text => text
          | None => ""
          end in
        if nonempty extract then Some (strip extract)
        else intro_of_pages rest
  end.

Definition _extract_intro_from_response (data : Data) : option string :=
  match query data with
  | None => None
  | Some q =>
      match pages q with
      | None => None
      | Some items => intro_of_pages items
      end
  end.

(** The HTTP call with its status check and JSON decoding: the decoded
    answer, or whatever exception one of the three raised. *)
Definition Http : Type := list request -> string -> result Data.

(** [get_coach_intro]: every exception ends in [None]. *)
Definition get_coach_intro (http : Http) (history : list request)
           (coach_name : string) : option string :=
  match http history coach_name with
  | Return data => _extract_intro_from_response data
  | Raise _ => None
  end.

End WikipediaClient.

(** ** [src/wikipedia_client_alternative.py]

    The same client on top of the [wikipediaapi] package.  Looking up the
    page, asking whether it exists and reading its summary may each raise;
    otherwise the page does not exist, or it has a summary. *)

Module WikipediaAlternative.
Import PyStr Chatbot.

(** [None]: [page.exists()] is false; [Some summary]: [page.summary]. *)
Definition Wiki : Type := list request -> string -> result (option string).

Definition get_coach_intro (wiki : Wiki) (history : list request)
           (coach_name : string) : option string :=
  match wiki history coach_name with
  | Return None => None
  | Return (Some summary) =>
      if nonempty summary then Some (strip summary) else None
  | Raise _ => None
  end.

End WikipediaAlternative.

(** ** The chatbot with its two clients, as [__init__] wires them *)

Module Wired.
Import Chatbot.

Definition services (endpoint : WikidataClient.Endpoint)
           (http : WikipediaClient.Http) : Services :=
  mkServices (WikidataClient.get_bundesliga_clubs endpoint)
             (WikidataClient.get_coach_for_club endpoint)
             (fun history coach_name =>
                Return (WikipediaClient.get_coach_intro http history coach_name)).

End Wired.

(** ** [main.py]: the console

    The lines are what [input] returns, one per call; when they run out the
    loop is waiting for the next one.  Interrupts and the end of the input
    stream are not part of the model; an exception that nothing catches ends
    the program without another line on the terminal. *)

Module Console.
Import PyStr Chatbot.

(** What goes to the terminal: a [print], or the prompt of [input]. *)
Inductive output : Type :=
| Print (text : string)
| Ask (prompt : string).

Definition rule : string := times "=" 60.

(** [user_input.lower() in ['quit', 'exit', 'q']] *)
Definition is_exit (user_input : string) : bool :=
  existsb (String.eqb (lower user_input)) ["quit"; "exit"; "q"].

Definition banner : list output :=
  [Print rule;
   Print "Germany`s 1. Bundesliga RAG-Chatbot Coach Information System";
   Print rule;
   Print "";
   Print "Initializing system (retrieving Germany`s 1. Bundesliga clubs data)..."].

Definition setup_failure : output :=
  Print "ERROR: Failed to initialize system. Please check your internet connection and try again.".

Definition instructions : list output :=
  [Print "System ready!";
   Print "";
   Print "Dear user, I am a Chatbot for Germany`s 1. Bundesliga Coach Information System";
   Print "";
   Print "You can ask questions about Germany`s 1. Bundesliga coaches (or type 'quit' or 'exit' to end or close the app)";
   Print "";
   Print "Please to get the correct search results, you must ask questions in the format given in the examples below";
   Print "Examples:";
   Print "  - Who is coaching Berlin?";
   Print "  - What about munich?";
   Print "  - Who is heidenheims manager?";
   Print "  - Who is it for Pauli?";
   Print ""].

Definition show_prompt (result_prompt : string) : list output :=
  [Print (nl ++ rule);
   Print "GENERATED LLM PROMPT:";
   Print rule;
   Print result_prompt;
   Print (rule ++ nl)].

Definition show_error (e : exn) : list output :=
  match e with
  | Exception msg => [Print ("Error: " ++ msg); Print ("Please try again." ++ nl)]
  end.

(** The state of the loop after the lines it was given. *)
Record Run : Type := mkRun {
  shown : list output;
  exited : bool;
  session : Session
}.

Section Loop.
Variable net : Services.

(** The [while True] of [main]. *)
Fixpoint question_loop (lines : list string) (st : Session) : Run :=
  match lines with
  | [] => mkRun [Ask "Your question: "] false st
  | line :: rest =>
      let user_input := strip line in
      if negb (nonempty user_input) then
        let r := question_loop rest st in
        mkRun (Ask "Your question: " :: shown r) (exited r) (session r)
      else if is_exit user_input then
        mkRun [Ask "Your question: "; Print "I hope to see you soon. Goodbye!"]
              true st
      else
        let (answer, st') := process_query net user_input st in
        let r := question_loop rest st' in
        let printed :=
          match answer with
          | Return result_prompt => show_prompt result_prompt
          | Raise e => show_error e
          end in
        mkRun (Ask "Your question: " :: printed ++ shown r)%list
              (exited r) (session r)
  end.

Definition main (lines : list string) (st : Session) : Run :=
  let (success, st') := initialize_clubs_data net st in
  match success with
  | Return true =>
      let r := question_loop lines st' in
      mkRun (banner ++ instructions ++ shown r)%list (exited r) (session r)
  | Return false => mkRun (banner ++ [setup_failure])%list true st'
  | Raise _ => mkRun banner true st'
  end.
End Loop.

End Console.

(** ** Answers of the services to run the clients on *)

Module ClientScenario.
Import PyStr Chatbot WikidataClient WikipediaClient.

Definition uri_term (uri : string) : Term := [("type", "uri"); ("value", uri)].
Definition literal (text : string) : Term :=
  [("xml:lang", "en"); ("type", "literal"); ("value", text)].

Definition union_row : Binding :=
  [("club", uri_term "http://www.wikidata.org/entity/Q141971");
   ("clubLabel", literal "1. FC Union Berlin");
   ("city", uri_term "http://www.wikidata.org/entity/Q64");
   ("cityLabel", literal "Berlin")].

(** A row without a label for the club. *)
Definition nameless_row : Binding :=
  [("club", uri_term "http://www.wikidata.org/entity/Q999")].

(** A club without a headquarters location: the city is optional in the
    query. *)
Definition homeless_row : Binding :=
  [("club", uri_term "http://www.wikidata.org/entity/Q51974");
   ("clubLabel", literal "Hamburger SV")].

Definition response_of (rows : list Binding) : Response :=
  mkResponse (Some (mkResults (Some rows))).

Definition baumgart_row : Binding :=
  [("coach", uri_term "http://www.wikidata.org/entity/Q66432");
   ("coachLabel", literal "Steffen Baumgart")].

Definition older_coach_row : Binding :=
  [("coach", uri_term "http://www.wikidata.org/entity/Q1");
   ("coachLabel", literal "Urs Fischer")].

Definition pages_data (items : list (string * PageData)) : Data :=
  mkData (Some (mkQuery (Some items))).

Definition baumgart_page : PageData :=
  [("title", "Steffen Baumgart");
   ("extract", String (ascii_of_nat 10)
                      "Steffen Baumgart is a German football manager... ")].

Definition empty_page : PageData := [("title", "Baumgart")].

Definition missing_page : PageData := [("title", "Nobody"); ("missing", "")].

End ClientScenario.

(** ** Facts about strings *)

Module StrFacts.
Import PyStr.

Lemma append_assoc (a b c : string) : (a ++ b) ++ c = a ++ (b ++ c).
Proof. induction a as [|x a IH]; simpl; [reflexivity | now rewrite IH]. Qed.

Lemma append_nil_r (a : string) : a ++ "" = a.
Proof. induction a as [|x a IH]; simpl; [reflexivity | now rewrite IH]. Qed.

Lemma length_append (a b : string) :
  String.length (a ++ b) = String.length a + String.length b.
Proof. induction a as [|x a IH]; simpl; [reflexivity | now rewrite IH]. Qed.

Lemma startswith_app (n r : string) : startswith n (n ++ r) = true.
Proof.
  induction n as [|x n IH]; simpl; [reflexivity|].
  now rewrite Ascii.eqb_refl, IH.
Qed.

Lemma contains_here (n h : string) :
  startswith n h = true -> contains n h = true.
Proof. intros H. destruct h; simpl in *; now rewrite H. Qed.

Lemma contains_app (a n b : string) : contains n (a ++ n ++ b) = true.
Proof.
  induction a as [|x a IH]; simpl.
  - apply contains_here, startswith_app.
  - rewrite IH. apply orb_true_r.
Qed.

Lemma contains_skip (a n b : string) :
  contains n b = true -> contains n (a ++ b) = true.
Proof.
  intros H. induction a as [|x a IH]; simpl; [exact H|].
  rewrite IH. apply orb_true_r.
Qed.

Lemma contains_app_r (a n : string) : contains n (a ++ n) = true.
Proof. rewrite <- (append_nil_r n) at 2. apply contains_app. Qed.

Lemma endswith_refl (n : string) : endswith n n = true.
Proof. destruct n; cbn [endswith]; now rewrite String.eqb_refl. Qed.

Lemma endswith_app (a n : string) : endswith n (a ++ n) = true.
Proof.
  induction a as [|x a IH]; simpl.
  - apply endswith_refl.
  - rewrite IH. apply orb_true_r.
Qed.

Lemma endswith_skip (a n b : string) :
  endswith n b = true -> endswith n (a ++ b) = true.
Proof.
  intros H. induction a as [|x a IH]; simpl; [exact H|].
  rewrite IH. apply orb_true_r.
Qed.

Lemma startswith_inv (n h : string) :
  startswith n h = true -> exists r, h = n ++ r.
Proof.
  revert h. induction n as [|x n IH]; intros h H; simpl in *.
  - now exists h.
  - destruct h as [|y h]; [discriminate|].
    apply andb_true_iff in H as [Hxy Hn].
    apply Ascii.eqb_eq in Hxy. subst y.
    destruct (IH _ Hn) as [r ->]. now exists r.
Qed.

Lemma contains_inv (n h : string) :
  contains n h = true -> exists a b, h = a ++ n ++ b.
Proof.
  induction h as [|x h IH]; simpl; intros H.
  - rewrite orb_false_r in H. destruct (startswith_inv _ _ H) as [r Hr].
    exists "", r. exact Hr.
  - apply orb_true_iff in H as [H|H].
    + destruct (startswith_inv _ _ H) as [r Hr]. exists "", r. exact Hr.
    + destruct (IH H) as (a & b & ->). now exists (String x a), b.
Qed.

End StrFacts.

(** ** The prompt *)

Module PromptFacts.
Import PyStr PromptBuilder Spec StrFacts.

Lemma build_context_layout (club_name city coach_name : string)
      (coach_intro : option string) :
  _build_context club_name city coach_name coach_intro =
  ("City: " ++ city) ++ nl ++ ("Club: " ++ club_name) ++ nl ++
  ("Current Coach: " ++ coach_name) ++ (nl ++ nl) ++ biography_block coach_intro.
Proof.
  unfold _build_context, biography_block.
  destruct coach_intro as [[|c intro]|]; cbn [List.app join];
    rewrite ?append_assoc; reflexivity.
Qed.

(** The prompt, piece by piece. *)
Lemma build_prompt_layout (user_question club_name city coach_name : string)
      (coach_intro : option string) :
  build_prompt user_question club_name city coach_name coach_intro =
  _get_system_prompt ++ (nl ++ nl ++ "RETRIEVED CONTEXT:" ++ nl) ++
  ("City: " ++ city) ++ nl ++
  ("Club: " ++ club_name) ++ nl ++
  ("Current Coach: " ++ coach_name) ++ (nl ++ nl) ++
  biography_block coach_intro ++ (nl ++ nl ++ "USER QUESTION:" ++ nl) ++
  user_question ++ (nl ++ nl ++ closing_line).
Proof.
  unfold build_prompt. rewrite build_context_layout.
  rewrite ?append_assoc. reflexivity.
Qed.

Lemma biography_block_shows (coach_intro : option string) :
  exists label, biography_block coach_intro = label ++ biography_or_sentence coach_intro.
Proof.
  destruct coach_intro as [[|c intro]|]; cbn [biography_block biography_or_sentence].
  - now exists "".
  - exists ("Coach Information from Wikipedia:" ++ nl). now rewrite append_assoc.
  - now exists "".
Qed.

Lemma in_order_head (p : string) (rest : list string) (after : string) :
  in_order rest after -> in_order (p :: rest) (p ++ after).
Proof. intros H. exists "", after. now split. Qed.

Lemma in_order_skip (a : string) (parts : list string) (text : string) :
  in_order parts text -> in_order parts (a ++ text).
Proof.
  destruct parts as [|p rest]; simpl; [trivial|].
  intros (before & after & -> & H).
  exists (a ++ before), after. now rewrite append_assoc.
Qed.

Lemma in_order_contains (parts : list string) :
  forall text, in_order parts text ->
  forall p, In p parts -> contains p text = true.
Proof.
  induction parts as [|p0 rest IH]; simpl; intros text H p Hin; [contradiction|].
  destruct H as (before & after & -> & H).
  destruct Hin as [<-|Hin].
  - apply contains_app.
  - now apply contains_skip, contains_skip, IH.
Qed.

(** The sections of the prompt, in the order of the template. *)
Lemma build_prompt_in_order (user_question club_name city coach_name : string)
      (coach_intro : option string) :
  in_order [_get_system_prompt;
            "City: " ++ city;
            "Club: " ++ club_name;
            "Current Coach: " ++ coach_name;
            biography_or_sentence coach_intro;
            "USER QUESTION:" ++ nl ++ user_question ++ nl]
           (build_prompt user_question club_name city coach_name coach_intro).
Proof.
  rewrite build_prompt_layout.
  destruct (biography_block_shows coach_intro) as [label ->].
  apply in_order_head.
  apply in_order_skip, in_order_head.
  apply in_order_skip, in_order_head.
  apply in_order_skip, in_order_head.
  rewrite (append_assoc label).
  apply in_order_skip, in_order_skip, in_order_head.
  exists (nl ++ nl), (nl ++ closing_line). split; [|exact I].
  rewrite !append_assoc. reflexivity.
Qed.

Lemma build_prompt_ends (user_question club_name city coach_name : string)
      (coach_intro : option string) :
  endswith ("USER QUESTION:" ++ nl ++ user_question ++ nl ++ nl ++ closing_line)
           (build_prompt user_question club_name city coach_name coach_intro)
  = true.
Proof.
  unfold build_prompt.
  repeat first [apply endswith_refl | apply endswith_skip].
Qed.

End PromptFacts.

(** ** The matcher and the extractor *)

Module ReFacts.
Import PyStr Re EntityExtractor StrFacts.

Lemma consumed_app (pre rest : string) :
  consumed (pre ++ rest) (String.length pre) = pre.
Proof. induction pre as [|c pre IH]; simpl; [now destruct rest | now rewrite IH]. Qed.

Lemma taken_app (pre rest : string) : taken (pre ++ rest) rest = pre.
Proof.
  unfold taken. rewrite length_append.
  replace (String.length pre + String.length rest - String.length rest)
    with (String.length pre) by lia.
  apply consumed_app.
Qed.

Lemma strip_lit_inv (l s rest : string) :
  strip_lit l s = Some rest -> s = l ++ rest.
Proof.
  revert s. induction l as [|a l IH]; intros s H; simpl in *.
  - now inversion H.
  - destruct s as [|b s]; [discriminate|].
    destruct (Ascii.eqb a b) eqn:E; [|discriminate].
    apply Ascii.eqb_eq in E. subst b. now rewrite (IH _ H).
Qed.

Section Inversion.
Context {R : Type}.

Lemma star_cls_inv (cls : ascii -> bool) (s : string)
      (k : string -> option R) (m : R) :
  star_cls cls s k = Some m ->
  exists pre rest,
    s = pre ++ rest /\ all_chars cls pre = true /\ k rest = Some m.
Proof.
  induction s as [|c s IH]; simpl; intros H.
  - now exists "", "".
  - destruct (cls c) eqn:Hc.
    + destruct (star_cls cls s k) as [m'|] eqn:E.
      * inversion H; subst m'.
        destruct (IH eq_refl) as (pre & rest & -> & Hall & Hk).
        exists (String c pre), rest. simpl. now rewrite Hc, Hall.
      * now exists "", (String c s).
    + now exists "", (String c s).
Qed.

Lemma plus_cls_inv (cls : ascii -> bool) (s : string)
      (k : string -> option R) (m : R) :
  plus_cls cls s k = Some m ->
  exists pre rest,
    s = pre ++ rest /\ pre <> "" /\ all_chars cls pre = true /\
    k rest = Some m.
Proof.
  destruct s as [|c s]; simpl; [discriminate|].
  destruct (cls c) eqn:Hc; [|discriminate]. intros H.
  destruct (star_cls_inv _ _ _ _ H) as (pre & rest & -> & Hall & Hk).
  exists (String c pre), rest. simpl. rewrite Hc, Hall.
  repeat split; [discriminate | exact Hk].
Qed.

(** A continuation that answers wherever another one does makes the run
    succeed wherever the other does. *)
Lemma star_cls_some_mono (cls : ascii -> bool) (s : string)
      (k1 k2 : string -> option R) :
  (forall x m, k1 x = Some m -> exists m', k2 x = Some m') ->
  forall m, star_cls cls s k1 = Some m ->
  exists m', star_cls cls s k2 = Some m'.
Proof.
  intros Hk. induction s as [|c s IH]; cbn [star_cls]; [apply Hk|].
  destruct (cls c); [|apply Hk].
  intros m H.
  destruct (star_cls cls s k1) as [m1|] eqn:E1.
  - destruct (IH _ eq_refl) as [m' ->]. now exists m'.
  - destruct (star_cls cls s k2) as [m2|]; [now exists m2|].
    exact (Hk _ _ H).
Qed.

(** Whatever way a pattern matches, the continuation that answered was
    given a suffix of the text, and the group as it was when the pattern
    has none. *)
Lemma rmatch_inv (r : regex) :
  forall (s : string) (g : option string)
         (k : string -> option string -> option R) (m : R),
    rmatch r s g k = Some m ->
    exists pre rest g',
      s = pre ++ rest /\ k rest g' = Some m /\
      (has_group r = false -> g' = g).
Proof.
  induction r as [l|cls|r IH|r1 IH1 r2 IH2|r IH]; intros s g k m H; simpl in H.
  - destruct (strip_lit l s) as [rest|] eqn:E; [|discriminate].
    exists l, rest, g. now rewrite (strip_lit_inv _ _ _ E).
  - destruct (plus_cls_inv _ _ _ _ H) as (pre & rest & -> & _ & _ & Hk).
    now exists pre, rest, g.
  - destruct (rmatch r s g k) as [m'|] eqn:E.
    + inversion H; subst m'. exact (IH _ _ _ _ E).
    + now exists "", s, g.
  - destruct (IH1 _ _ _ _ H) as (pre1 & rest1 & g1 & -> & H2 & Hg1).
    destruct (IH2 _ _ _ _ H2) as (pre2 & rest2 & g2 & -> & Hk & Hg2).
    exists (pre1 ++ pre2), rest2, g2. rewrite append_assoc.
    repeat split; [exact Hk|]. simpl. intros Hn.
    apply orb_false_iff in Hn as [Hn1 Hn2].
    now rewrite (Hg2 Hn2), (Hg1 Hn1).
  - destruct (IH _ _ _ _ H) as (pre & rest & g' & -> & Hk & _).
    exists pre, rest, (Some (taken (pre ++ rest) rest)).
    repeat split; [exact Hk|]. simpl. discriminate.
Qed.

(** A pattern that captures a token hands it on, and the token is a piece
    of the text that is not empty. *)
Lemma captures_token_inv (r : regex) :
  captures_token r = true ->
  forall (s : string) (g : option string)
         (k : string -> option string -> option R) (m : R),
    rmatch r s g k = Some m ->
    exists a tok b rest,
      s = a ++ tok ++ b ++ rest /\ tok <> "" /\ k rest (Some tok) = Some m.
Proof.
  induction r as [l|cls|r IH|r1 IH1 r2 IH2|r IH]; simpl; try discriminate.
  - intros Hc s g k m H.
    apply orb_true_iff in Hc as [Hc|Hc]; apply andb_true_iff in Hc as [Hc1 Hc2].
    + apply negb_true_iff in Hc2.
      destruct (IH1 Hc1 _ _ _ _ H) as (a & tok & b & rest & -> & Htok & H2).
      destruct (rmatch_inv _ _ _ _ _ H2) as (pre & rest2 & g' & -> & Hk & Hg).
      rewrite (Hg Hc2) in Hk.
      exists a, tok, (b ++ pre), rest2. now rewrite append_assoc.
    + apply negb_true_iff in Hc1.
      destruct (rmatch_inv _ _ _ _ _ H) as (pre & rest1 & g' & -> & H2 & _).
      destruct (IH2 Hc2 _ _ _ _ H2) as (a & tok & b & rest & -> & Htok & Hk).
      exists (pre ++ a), tok, b, rest. now rewrite append_assoc.
  - destruct r as [|cls| | |]; try discriminate.
    intros _ s g k m H. simpl in H.
    destruct (plus_cls_inv _ _ _ _ H) as (pre & rest & -> & Hne & _ & Hk).
    rewrite taken_app in Hk. now exists "", pre, "", rest.
Qed.
End Inversion.

Lemma search_inv (r : regex) (s : string) (m : Match) :
  search r s = Some m ->
  exists pre s', s = pre ++ s' /\ match_here r s' = Some m.
Proof.
  induction s as [|c s IH]; simpl; intros H.
  - destruct (match_here r "") as [m'|] eqn:E; [|discriminate].
    inversion H; subst m'. now exists "", "".
  - destruct (match_here r (String c s)) as [m'|] eqn:E.
    + inversion H; subst m'. now exists "", (String c s).
    + destruct (IH H) as (pre & s' & -> & Hm). now exists (String c pre), s'.
Qed.

(** [match.group(1)] of a token pattern is a piece of the text, not empty. *)
Lemma search_token (r : regex) (s : string) (m : Match) :
  captures_token r = true ->
  search r s = Some m ->
  exists a tok b, s = a ++ tok ++ b /\ tok <> "" /\ group1 m = Some tok.
Proof.
  intros Hc H.
  destruct (search_inv _ _ _ H) as (pre & s' & -> & Hm).
  unfold match_here in Hm.
  destruct (captures_token_inv _ Hc _ _ _ _ Hm)
    as (a & tok & b & rest & -> & Htok & Hk).
  inversion Hk; subst m. simpl.
  exists (pre ++ a), tok, (b ++ rest). now rewrite append_assoc.
Qed.

Lemma patterns_capture (p : regex) : In p patterns -> captures_token p = true.
Proof.
  unfold patterns. simpl. intros H.
  repeat (destruct H as [<-|H]; [reflexivity|]). contradiction.
Qed.

(** What [_extract_entity_logic] returns is the group of one of its
    patterns. *)
Lemma extract_entity_from_pattern (s t : string) :
  _extract_entity_logic s = Some t ->
  exists p m, In p patterns /\ search p s = Some m /\ group1 m = Some t.
Proof.
  unfold _extract_entity_logic. intros H.
  destruct (search pat_coaching s) as [m1|] eqn:E1;
    [exists pat_coaching, m1; repeat split; [unfold patterns; simpl; tauto | assumption | exact H]|].
  destruct (search pat_about s) as [m2|] eqn:E2;
    [exists pat_about, m2; repeat split; [unfold patterns; simpl; tauto | assumption | exact H]|].
  destruct (search pat_manager s) as [m3|] eqn:E3;
    [exists pat_manager, m3; repeat split; [unfold patterns; simpl; tauto | assumption | exact H]|].
  destruct (search pat_for s) as [m4|] eqn:E4;
    [exists pat_for, m4; repeat split; [unfold patterns; simpl; tauto | assumption | exact H]|].
  destruct (search pat_in s) as [m5|] eqn:E5;
    [exists pat_in, m5; repeat split; [unfold patterns; simpl; tauto | assumption | exact H]|].
  discriminate.
Qed.

Lemma extract_entity_token (s t : string) :
  _extract_entity_logic s = Some t ->
  t <> "" /\ exists a b, s = a ++ t ++ b.
Proof.
  intros H.
  destruct (extract_entity_from_pattern _ _ H) as (p & m & Hp & Hs & Hg).
  destruct (search_token _ _ _ (patterns_capture _ Hp) Hs)
    as (a & tok & b & -> & Hne & Hg').
  rewrite Hg in Hg'. inversion Hg'; subst tok.
  split; [exact Hne | now exists a, b].
Qed.

(** The extractor never returns the empty string. *)
Lemma extract_city_truthy (q t : string) :
  extract_city q = Some t -> truthy (Some t) = true.
Proof.
  unfold extract_city. intros H.
  destruct (extract_entity_token _ _ H) as [Hne _].
  destruct t; [contradiction | reflexivity].
Qed.

End ReFacts.

(** ** The third pattern: [(\w+)s?\s+manager] *)

Module ManagerFacts.
Import PyStr Re EntityExtractor StrFacts ReFacts.

Local Abbreviation spaces_manager := (Seq (PlusCls is_space) (Lit "manager")).
Local Abbreviation s_spaces_manager := (Seq (Opt (Lit "s")) spaces_manager).
Local Abbreviation finish s0 := (fun rest g => Some (mkMatch (taken s0 rest) g)).

(** Whether [\s+manager] matches does not depend on the group. *)
Lemma spaces_manager_any_group (s0 r : string) (g g' : option string) (m : Match) :
  rmatch spaces_manager r g (finish s0) = Some m ->
  exists m', rmatch spaces_manager r g' (finish s0) = Some m'.
Proof.
  cbn [rmatch]. destruct r as [|c r]; cbn [plus_cls]; [discriminate|].
  destruct (is_space c); [|discriminate].
  apply star_cls_some_mono. intros x m1.
  destruct (strip_lit "manager" x); [eauto | discriminate].
Qed.

(** [\s+manager] matches only in front of a white space character. *)
Lemma spaces_manager_starts (s0 r : string) (g : option string) (m : Match) :
  rmatch spaces_manager r g (finish s0) = Some m ->
  exists c r', r = String c r' /\ is_space c = true.
Proof.
  cbn [rmatch]. destruct r as [|c r]; cbn [plus_cls]; [discriminate|].
  destruct (is_space c) eqn:E; [|discriminate]. now exists c, r.
Qed.

Lemma space_is_no_word (c : ascii) : is_space c = true -> is_word c = false.
Proof. destruct c as [[] [] [] [] [] [] [] []]; vm_compute; congruence. Qed.

Lemma space_is_no_s (c : ascii) (r : string) :
  is_space c = true -> strip_lit "s" (String c r) = None.
Proof.
  intros H. cbn [strip_lit]. destruct (Ascii.eqb "s" c) eqn:E; [|reflexivity].
  apply Ascii.eqb_eq in E. subst c. discriminate.
Qed.

(** The run of word characters of the group stops where [\s+manager]
    matches: the way through the optional "s" is never the one taken. *)
Lemma word_run_stops_at_space (s0 s : string) (m : Match) :
  star_cls is_word s
    (fun rest => rmatch s_spaces_manager rest (Some (taken s0 rest)) (finish s0))
  = Some m ->
  exists pre rest,
    s = pre ++ rest /\ all_chars is_word pre = true /\
    rmatch spaces_manager rest (Some (taken s0 rest)) (finish s0) = Some m.
Proof.
  induction s as [|c s IH]; cbn [star_cls].
  - cbn [rmatch strip_lit plus_cls]. discriminate.
  - assert (Hhere :
      rmatch s_spaces_manager (String c s) (Some (taken s0 (String c s))) (finish s0)
      = Some m ->
      star_cls is_word s
        (fun rest => rmatch s_spaces_manager rest (Some (taken s0 rest)) (finish s0))
      = None ->
      rmatch spaces_manager (String c s) (Some (taken s0 (String c s))) (finish s0)
      = Some m).
    { intros H Hnone. cbn [rmatch] in H.
      destruct (strip_lit "s" (String c s)) as [r1|] eqn:Es; [|exact H].
      destruct (plus_cls is_space r1 _) as [m1|] eqn:E1; [|exact H].
      exfalso.
      assert (r1 = s) as ->.
      { cbn [strip_lit] in Es. destruct (Ascii.eqb "s" c); now inversion Es. }
      destruct (spaces_manager_starts s0 s _ m1 E1) as (d & r' & -> & Hd).
      cbn [star_cls] in Hnone. rewrite (space_is_no_word _ Hd) in Hnone.
      cbn [rmatch] in Hnone. rewrite (space_is_no_s _ _ Hd) in Hnone.
      destruct (spaces_manager_any_group s0 (String d r') _
                  (Some (taken s0 (String d r'))) m1 E1) as [m' Hm'].
      cbn [rmatch] in Hm'. rewrite Hm' in Hnone. discriminate. }
    destruct (is_word c) eqn:Hc.
    + destruct (star_cls is_word s _) as [m'|] eqn:E.
      * intros H. inversion H; subst m'.
        destruct (IH eq_refl) as (pre & rest & -> & Hall & Hm).
        exists (String c pre), rest. cbn [all_chars]. now rewrite Hc, Hall.
      * intros H. exists "", (String c s). auto.
    + intros H. exists "", (String c s).
      repeat split. cbn [rmatch] in H |- *.
      destruct (strip_lit "s" (String c s)) as [r1|] eqn:Es; [|exact H].
      exfalso. cbn [strip_lit] in Es.
      destruct (Ascii.eqb "s" c) eqn:E; [|discriminate].
      apply Ascii.eqb_eq in E. subst c. discriminate.
Qed.

(** In every match of the third pattern the group runs up to the white
    space in front of "manager": a final "s" of the word stays in it. *)
Lemma manager_group_runs_to_space (s : string) (m : Match) :
  search pat_manager s = Some m ->
  exists tok ws,
    group1 m = Some tok /\ tok <> "" /\
    ws <> "" /\ all_chars is_space ws = true /\
    group0 m = tok ++ ws ++ "manager".
Proof.
  intros H. destruct (search_inv _ _ _ H) as (before & s0 & _ & Hm).
  unfold match_here, pat_manager in Hm. cbn [rmatch] in Hm.
  destruct s0 as [|c s0]; cbn [plus_cls] in Hm; [discriminate|].
  destruct (is_word c) eqn:Hc; [|discriminate].
  destruct (word_run_stops_at_space (String c s0) s0 m Hm)
    as (pre & rest & -> & Hall & Ht).
  cbn [rmatch] in Ht.
  destruct (plus_cls_inv _ _ _ _ Ht) as (ws & r3 & -> & Hws & Hspace & Hk).
  destruct (strip_lit "manager" r3) as [r4|] eqn:E4; [|discriminate].
  apply strip_lit_inv in E4. subst r3. inversion Hk; subst m. cbn [group0 group1].
  pose proof (taken_app (String c pre) (ws ++ "manager" ++ r4)) as Hg1.
  pose proof (taken_app (String c pre ++ ws ++ "manager") r4) as Hg0.
  rewrite !append_assoc in Hg0.
  exists (String c pre), ws.
  split; [f_equal; exact Hg1|].
  split; [discriminate|].
  split; [exact Hws|].
  split; [exact Hspace | exact Hg0].
Qed.

End ManagerFacts.

(** ** Lower case *)

Module LowerFacts.
Import PyStr Re EntityExtractor StrFacts ReFacts.

Lemma lower_char_idem (c : ascii) : lower_char (lower_char c) = lower_char c.
Proof. destruct c as [[] [] [] [] [] [] [] []]; reflexivity. Qed.

Lemma lower_idem (s : string) : lower (lower s) = lower s.
Proof.
  induction s as [|c s IH]; simpl; [reflexivity|].
  now rewrite lower_char_idem, IH.
Qed.

Lemma lower_app (a b : string) : lower (a ++ b) = lower a ++ lower b.
Proof. induction a as [|c a IH]; simpl; [reflexivity | now rewrite IH]. Qed.

(** A piece of a text in lower case is in lower case. *)
Lemma lower_piece (a t b : string) :
  lower (a ++ t ++ b) = a ++ t ++ b -> lower t = t.
Proof.
  induction a as [|c a IH]; simpl.
  - revert b. induction t as [|c t IHt]; intros b H; simpl in *; [reflexivity|].
    inversion H as [[Hc Ht]]. rewrite (IHt _ Ht). congruence.
  - intros H. inversion H as [[Hc Ha]]. exact (IH Ha).
Qed.

Lemma lstrip_suffix (s : string) : exists a, s = a ++ lstrip s.
Proof.
  induction s as [|c s [a IH]]; simpl.
  - now exists "".
  - destruct (is_space c).
    + exists (String c a). simpl. now rewrite <- IH.
    + now exists "".
Qed.

Lemma rstrip_prefix (s : string) : exists b, s = rstrip s ++ b.
Proof.
  induction s as [|c s [b IH]]; simpl.
  - now exists "".
  - destruct (rstrip s) as [|c' r] eqn:E.
    + destruct (is_space c).
      * now exists (String c s).
      * exists s. reflexivity.
    + exists b. simpl in *. now rewrite <- IH.
Qed.

Lemma strip_piece (s : string) : exists a b, s = a ++ strip s ++ b.
Proof.
  unfold strip. destruct (lstrip_suffix s) as [a Ha].
  destruct (rstrip_prefix (lstrip s)) as [b Hb].
  exists a, b. now rewrite <- Hb.
Qed.

(** The token that the extractor hands to the resolver is in lower case. *)
Lemma extract_city_lower (q t : string) :
  extract_city q = Some t -> lower t = t.
Proof.
  unfold extract_city. intros H.
  destruct (extract_entity_token _ _ H) as [_ (a & b & Hs)].
  destruct (strip_piece (lower q)) as (a' & b' & Hq).
  rewrite Hs in Hq.
  assert (E : (a' ++ a) ++ t ++ b ++ b' = lower q)
    by (rewrite Hq, !append_assoc; reflexivity).
  apply (lower_piece (a' ++ a) t (b ++ b')).
  rewrite E. apply lower_idem.
Qed.

End LowerFacts.

(** ** Resolution *)

Module ResolveFacts.
Import PyStr Chatbot Spec StrFacts.

Lemma find_pauli_first (pre post : list Club) (c : Club) :
  (forall d, In d pre -> has_pauli d = false) ->
  has_pauli c = true ->
  find_pauli (pre ++ c :: post) = Some c.
Proof.
  unfold has_pauli. induction pre as [|d pre IH]; simpl; intros Hpre Hc.
  - now rewrite Hc.
  - rewrite (Hpre d (or_introl eq_refl)). apply IH; auto.
Qed.

Lemma find_pauli_none (roster : list Club) :
  (forall c, In c roster -> has_pauli c = false) ->
  find_pauli roster = None.
Proof.
  unfold has_pauli. induction roster as [|d roster IH]; simpl; intros H.
  - reflexivity.
  - rewrite (H d (or_introl eq_refl)). apply IH. auto.
Qed.

(** The normal case returns a club of the roster that one of its three
    tests accepts. *)
Lemma find_by_city_or_name_sound (t : string) (roster : list Club) (c : Club) :
  find_by_city_or_name t roster = Some c ->
  In c roster /\
  (city_matches t c = true \/ contains t (lower (club_name c)) = true).
Proof.
  unfold city_matches. induction roster as [|d roster IH]; simpl; [discriminate|].
  destruct (contains t (lower (city d)) || contains (lower (city d)) t) eqn:E1.
  - intros H. inversion H; subst d. auto.
  - destruct (contains t (lower (club_name d))) eqn:E2.
    + intros H. inversion H; subst d. auto.
    + intros H. destruct (IH H) as [Hin Hm]. auto.
Qed.

(** A roster with a club that has "pauli" in its name splits at the first
    such club. *)
Lemma first_pauli_split (roster : list Club) :
  (exists c, In c roster /\ has_pauli c = true) ->
  exists pre c post,
    roster = (pre ++ c :: post)%list /\
    (forall d, In d pre -> has_pauli d = false) /\
    has_pauli c = true.
Proof.
  induction roster as [|d roster IH]; intros (c & Hin & Hc); [contradiction|].
  destruct (has_pauli d) eqn:Hd.
  - exists [], d, roster. repeat split; [intros ? []|exact Hd].
  - destruct IH as (pre & c' & post & -> & Hpre & Hc').
    + destruct Hin as [<-|Hin]; [congruence|]. now exists c.
    + exists (d :: pre), c', post. repeat split; [|exact Hc'].
      intros e [<-|He]; [exact Hd | now apply Hpre].
Qed.

Lemma find_club_pauli_first (pre post : list Club) (c : Club) :
  (forall d, In d pre -> has_pauli d = false) ->
  has_pauli c = true ->
  find_club_by_city (Some (pre ++ c :: post)%list) "pauli" = Some c.
Proof.
  intros Hpre Hc. unfold find_club_by_city.
  destruct (pre ++ c :: post)%list as [|d l] eqn:E.
  - destruct pre; discriminate.
  - rewrite <- E. cbn [String.eqb Ascii.eqb Bool.eqb].
    now rewrite (find_pauli_first pre post c Hpre Hc).
Qed.

(** [initialize_clubs_data] lets no exception out, and when it reports
    failure the cache is absent or empty. *)
Lemma failed_initialization (net : Services) (st : Session) :
  exists ok st',
    initialize_clubs_data net st = (Return ok, st') /\
    (ok = false -> clubs_cache st' = None \/ clubs_cache st' = Some []).
Proof.
  unfold initialize_clubs_data, try_except, bind, call, set_cache, ret.
  destruct (get_bundesliga_clubs net (sent st)) as [[|c clubs]|e];
    cbn [clubs_cache sent]; eexists; eexists; (split; [reflexivity|]);
    cbn [clubs_cache]; intros; auto; discriminate.
Qed.

Lemma find_club_empty (cache : option (list Club)) (t : string) :
  cache = None \/ cache = Some [] -> find_club_by_city cache t = None.
Proof. intros [-> | ->]; reflexivity. Qed.

(** A text found in a lowered text is in lower case. *)
Lemma found_in_lowered (t x : string) :
  contains t (lower x) = true -> lower t = t.
Proof.
  intros H. destruct (contains_inv _ _ H) as (a & b & E).
  apply (LowerFacts.lower_piece a t b). rewrite <- E. apply LowerFacts.lower_idem.
Qed.

Lemma not_in_lowered (t x : string) :
  lower t <> t -> contains t (lower x) = false.
Proof.
  intros H. destruct (contains t (lower x)) eqn:E; [|reflexivity].
  now destruct (H (found_in_lowered _ _ E)).
Qed.

(** The two loops of [find_club_by_city], for a roster of any length. *)
Lemma find_club_unfold (clubs : list Club) (t : string) :
  find_club_by_city (Some clubs) t
  = match (if t =? "pauli" then find_pauli clubs else None) with
    | Some club => Some club
    | None => find_by_city_or_name t clubs
    end.
Proof. destruct clubs; [now destruct (t =? "pauli") | reflexivity]. Qed.

Section Recasing.
Variable recase : Club -> Club.
Variable roster : list Club.
Hypothesis same_lowered :
  forall c, In c roster ->
            lower (city (recase c)) = lower (city c) /\
            lower (club_name (recase c)) = lower (club_name c).

Lemma find_pauli_recased (clubs : list Club) :
  incl clubs roster ->
  find_pauli (map recase clubs) = option_map recase (find_pauli clubs).
Proof.
  induction clubs as [|c clubs IH]; intros Hin; [reflexivity|].
  cbn [map find_pauli].
  destruct (same_lowered c (Hin c (or_introl eq_refl))) as [_ ->].
  destruct (contains "pauli" (lower (club_name c))); [reflexivity|].
  apply IH. intros d Hd. apply Hin. now right.
Qed.

Lemma find_by_city_or_name_recased (t : string) (clubs : list Club) :
  incl clubs roster ->
  find_by_city_or_name t (map recase clubs)
  = option_map recase (find_by_city_or_name t clubs).
Proof.
  induction clubs as [|c clubs IH]; intros Hin; [reflexivity|].
  cbn [map find_by_city_or_name].
  destruct (same_lowered c (Hin c (or_introl eq_refl))) as [-> ->].
  destruct (contains t (lower (city c)) || contains (lower (city c)) t);
    [reflexivity|].
  destruct (contains t (lower (club_name c))); [reflexivity|].
  apply IH. intros d Hd. apply Hin. now right.
Qed.

(** Another casing of the names of the roster changes nothing in which
    club is found. *)
Lemma find_club_recased (t : string) :
  find_club_by_city (Some (map recase roster)) t
  = option_map recase (find_club_by_city (Some roster) t).
Proof.
  rewrite !find_club_unfold.
  rewrite (find_pauli_recased roster (incl_refl _)).
  rewrite (find_by_city_or_name_recased t roster (incl_refl _)).
  destruct (t =? "pauli"); [|reflexivity].
  now destruct (find_pauli roster).
Qed.
End Recasing.

(** For a token that is not in lower case only the test "lowered city in
    token" is left. *)
Lemma find_club_unlowered (roster : list Club) (t : string) :
  lower t <> t ->
  find_club_by_city (Some roster) t
  = find (fun c => contains (lower (city c)) t) roster.
Proof.
  intros Ht. rewrite find_club_unfold.
  assert (Hp : (t =? "pauli") = false).
  { apply String.eqb_neq. intros ->. now apply Ht. }
  rewrite Hp.
  induction roster as [|c clubs IH]; [reflexivity|].
  cbn [find_by_city_or_name find].
  rewrite !(not_in_lowered t _ Ht). cbn [orb].
  now destruct (contains (lower (city c)) t).
Qed.

End ResolveFacts.

(** ** The properties of the specification *)

Module Properties.
Import PyStr Re EntityExtractor PromptBuilder Chatbot Spec Scenario.
Import StrFacts PromptFacts ReFacts LowerFacts ResolveFacts.

(** C1. [process_query] answers every question with a string and lets no
    exception out: a question without a token, a token without a club, a
    club without a coach, a failed coach query and a failure of the intro
    client each end in the error text of their kind, and the roster cache is
    afterwards what it was. *)
Theorem process_query_never_raises (net : Services) (q : string) (st : Session) :
  exists answer st',
    process_query net q st = (Return answer, st') /\
    clubs_cache st' = clubs_cache st /\
    match extract_city q with
    | None => answer = _format_error_response msg_no_city
    | Some t =>
        match find_club_by_city (clubs_cache st) t with
        | None => answer = _format_error_response (msg_no_club t)
        | Some club =>
            match get_coach_for_club net (sent st) (club_qid club) with
            | Raise _ => answer = _format_error_response msg_unexpected
            | Return None =>
                answer = _format_error_response (msg_no_coach (club_name club))
            | Return (Some coach) =>
                match get_coach_intro net
                        (sent st ++ [GetCoachForClub (club_qid club)])
                        (name coach) with
                | Raise _ => answer = _format_error_response msg_unexpected
                | Return intro =>
                    answer = build_prompt q (club_name club) (city club)
                                          (name coach) intro
                end
            end
        end
    end.
Proof.
  unfold process_query, try_except, bind, call, get_cache, ret.
  destruct (extract_city q) as [t|] eqn:Et.
  - rewrite (extract_city_truthy _ _ Et). cbn [negb].
    destruct (find_club_by_city (clubs_cache st) t) as [club|] eqn:Ec.
    + destruct (get_coach_for_club net (sent st) (club_qid club))
        as [[coach|]|e] eqn:Eco; cbn [clubs_cache sent].
      * destruct (get_coach_intro net
                    (sent st ++ [GetCoachForClub (club_qid club)]) (name coach))
          as [intro|e] eqn:Ei; eauto.
      * eauto.
      * eauto.
    + eauto.
  - cbn [truthy negb]. eauto.
Qed.

(** C2, as the specification states it, fails on the code:
    [find_club_by_city] lowers the names of the roster but compares the token
    as it is given, so "BERLIN" and "Berlin" find no club where "berlin"
    finds one. *)
Lemma find_club_by_city_token_case_sensitive :
  lower "BERLIN" = lower "berlin" /\
  lower "Berlin" = lower "berlin" /\
  find_club_by_city (Some [union_berlin]) "berlin" = Some union_berlin /\
  find_club_by_city (Some [union_berlin]) "BERLIN" = None /\
  find_club_by_city (Some [union_berlin]) "Berlin" = None.
Proof. repeat split; reflexivity. Qed.

(** C2, amended.  Resolution does not depend on the casing of the roster
    nor on that of the question, but it does on that of the token.
    [find_club_by_city] lowers the city and the name of every club before it
    compares: a roster whose names are written in another casing gives the
    club at the same place, for every token.  [extract_city] lowers the
    question: two casings of one question give the same token, in lower
    case, and so the same club.  The token itself is compared as it is
    given: one that is not in lower case is in no lowered name, and only the
    test "lowered city in token" is left to find a club for it. *)
Theorem roster_and_question_casing_do_not_matter
        (recase : Club -> Club) (roster : list Club) (q1 q2 : string) :
  (forall c, In c roster ->
             lower (city (recase c)) = lower (city c) /\
             lower (club_name (recase c)) = lower (club_name c)) ->
  lower q1 = lower q2 ->
  (forall t, find_club_by_city (Some (map recase roster)) t
             = option_map recase (find_club_by_city (Some roster) t)) /\
  (forall t, lower t <> t ->
             find_club_by_city (Some roster) t
             = find (fun c => contains (lower (city c)) t) roster) /\
  (forall t, extract_city q1 = Some t -> lower t = t) /\
  resolve_question (Some (map recase roster)) q1
  = option_map recase (resolve_question (Some roster) q2).
Proof.
  intros Hcase Hq.
  assert (E : extract_city q1 = extract_city q2)
    by (unfold extract_city; now rewrite Hq).
  split; [|split; [|split]].
  - intros t. now apply find_club_recased.
  - intros t. apply find_club_unlowered.
  - intros t. apply extract_city_lower.
  - unfold resolve_question. rewrite E.
    destruct (extract_city q2) as [t|]; [|reflexivity].
    now apply find_club_recased.
Qed.

Lemma roster_and_question_casing_do_not_matter_witness :
  resolve_question
    (Some [mkClub "1. fc UNION berlin" "BERLIN" (club_uri union_berlin)
                  (club_qid union_berlin)])
    "Who is coaching BERLIN?"
  = Some (mkClub "1. fc UNION berlin" "BERLIN" (club_uri union_berlin)
                 (club_qid union_berlin)) /\
  resolve_question (Some [union_berlin]) "who is coaching berlin?"
  = Some union_berlin.
Proof.
  destruct (roster_and_question_casing_do_not_matter
              (fun c => mkClub "1. fc UNION berlin" "BERLIN" (club_uri c) (club_qid c))
              [union_berlin]
              "Who is coaching BERLIN?" "who is coaching berlin?")
    as (_ & _ & _ & H).
  - intros c [<-|[]]. split; reflexivity.
  - reflexivity.
  - split; [exact H | reflexivity].
Defined.

(** C3. When several patterns match the normalised question, the token is
    the group of the first of them in the order coaching, about, manager,
    for, in: the pattern at position [k] decides as soon as none before it
    matches, whatever the later ones do. *)
Theorem first_matching_pattern_wins
        (q : string) (k : nat) (p : regex) (m : Match) :
  nth_error patterns k = Some p ->
  search p (strip (lower q)) = Some m ->
  (forall j p', j < k -> nth_error patterns j = Some p' ->
                search p' (strip (lower q)) = None) ->
  extract_city q = group1 m.
Proof.
  intros Hp Hm Hprev.
  assert (H0 : 0 < k -> search pat_coaching (strip (lower q)) = None)
    by (intros; now apply (Hprev 0)).
  assert (H1 : 1 < k -> search pat_about (strip (lower q)) = None)
    by (intros; now apply (Hprev 1)).
  assert (H2 : 2 < k -> search pat_manager (strip (lower q)) = None)
    by (intros; now apply (Hprev 2)).
  assert (H3 : 3 < k -> search pat_for (strip (lower q)) = None)
    by (intros; now apply (Hprev 3)).
  unfold extract_city, _extract_entity_logic.
  destruct k as [|[|[|[|[|k]]]]]; cbn in Hp.
  - inversion Hp; subst p. now rewrite Hm.
  - inversion Hp; subst p. rewrite H0 by lia. now rewrite Hm.
  - inversion Hp; subst p. rewrite H0, H1 by lia. now rewrite Hm.
  - inversion Hp; subst p. rewrite H0, H1, H2 by lia. now rewrite Hm.
  - inversion Hp; subst p. rewrite H0, H1, H2, H3 by lia. now rewrite Hm.
  - destruct k; discriminate.
Qed.

Lemma first_matching_pattern_wins_witness :
  search pat_manager
         (strip (lower "What about Munich, and who is Bremens manager?")) <> None /\
  extract_city "What about Munich, and who is Bremens manager?" = Some "munich".
Proof.
  split; [vm_compute; discriminate|].
  apply (first_matching_pattern_wins
           "What about Munich, and who is Bremens manager?" 1 pat_about
           (mkMatch "about munich" (Some "munich"))).
  - reflexivity.
  - vm_compute. reflexivity.
  - intros j p' Hj Hp. destruct j as [|j]; [|lia].
    inversion Hp; subst p'. vm_compute. reflexivity.
Defined.

(** C4. On a roster with a club whose name contains "pauli" in whatever
    casing, the token "pauli" resolves to the first such club, and the city
    tests are not consulted: with FC St. Pauli and Hamburger SV both in
    Hamburg, it is FC St. Pauli. *)
Theorem pauli_resolves_to_first_pauli_club (roster : list Club) :
  (exists c, In c roster /\ has_pauli c = true) ->
  exists pre c post,
    roster = (pre ++ c :: post)%list /\
    (forall d, In d pre -> has_pauli d = false) /\
    has_pauli c = true /\
    find_club_by_city (Some roster) "pauli" = Some c.
Proof.
  intros H.
  destruct (first_pauli_split roster H) as (pre & c & post & -> & Hpre & Hc).
  exists pre, c, post. repeat split; try assumption.
  now apply find_club_pauli_first.
Qed.

Lemma pauli_resolves_to_first_pauli_club_witness :
  find_club_by_city (Some [hamburger_sv; st_pauli]) "pauli" = Some st_pauli /\
  find_club_by_city (Some [hamburger_sv; st_pauli]) "pauli" <> Some hamburger_sv.
Proof.
  destruct (pauli_resolves_to_first_pauli_club [hamburger_sv; st_pauli])
    as (pre & c & post & Hr & Hpre & Hc & Hfind).
  - exists st_pauli. split; [simpl; auto | reflexivity].
  - assert (c = st_pauli) as ->.
    { destruct pre as [|d [|e pre]]; inversion Hr; subst.
      + discriminate Hc.
      + reflexivity.
      + destruct pre; discriminate. }
    rewrite Hfind. split; [reflexivity | discriminate].
Defined.

(** C10. When the token is "pauli" and no club name contains "pauli", the
    special case returns nothing of its own: the answer is that of the normal
    scan, and a club it finds was accepted by a test on its city. *)
Theorem pauli_falls_through_to_general_matching (roster : list Club) :
  (forall c, In c roster -> has_pauli c = false) ->
  find_club_by_city (Some roster) "pauli" = find_by_city_or_name "pauli" roster /\
  (forall c, find_club_by_city (Some roster) "pauli" = Some c ->
             city_matches "pauli" c = true).
Proof.
  intros Hno.
  assert (E : find_club_by_city (Some roster) "pauli" =
              find_by_city_or_name "pauli" roster).
  { unfold find_club_by_city. destruct roster as [|d l] eqn:Er; [reflexivity|].
    rewrite <- Er in *. cbn [String.eqb Ascii.eqb Bool.eqb].
    now rewrite (find_pauli_none roster Hno). }
  split; [exact E|].
  intros c Hc. rewrite E in Hc.
  destruct (find_by_city_or_name_sound _ _ _ Hc) as [Hin [Hcity|Hname]].
  - exact Hcity.
  - specialize (Hno c Hin). unfold has_pauli in Hno. congruence.
Qed.

Lemma pauli_falls_through_to_general_matching_witness :
  find_club_by_city (Some [hamburger_sv; quarter_club]) "pauli" = Some quarter_club /\
  city_matches "pauli" quarter_club = true.
Proof.
  destruct (pauli_falls_through_to_general_matching [hamburger_sv; quarter_club])
    as [E Hcity].
  - intros c [<-|[<-|[]]]; reflexivity.
  - split; [rewrite E; reflexivity|].
    apply Hcity. rewrite E. reflexivity.
Defined.

(** C6. With the roster cache absent or empty, [find_club_by_city] finds
    nothing and [process_query] answers with an error text, and the session
    is left as it was: no request was sent. *)
Theorem empty_roster_fails_fast (net : Services) (q : string) (st : Session) :
  clubs_cache st = None \/ clubs_cache st = Some [] ->
  (forall t, find_club_by_city (clubs_cache st) t = None) /\
  exists msg,
    process_query net q st = (Return (_format_error_response msg), st).
Proof.
  intros Hcache.
  assert (Hfind : forall t, find_club_by_city (clubs_cache st) t = None)
    by (intros t; now apply find_club_empty).
  split; [exact Hfind|].
  unfold process_query, try_except, bind, get_cache, ret.
  destruct (extract_city q) as [t|] eqn:Et.
  - rewrite (extract_city_truthy _ _ Et). cbn [negb].
    rewrite Hfind. now exists (msg_no_club t).
  - cbn [truthy negb]. now exists msg_no_city.
Qed.

Lemma empty_roster_fails_fast_witness :
  find_club_by_city (Some []) "berlin" = None /\
  sent (snd (process_query quiet_services "Who is coaching Berlin?"
                           (mkSession (Some []) []))) = [].
Proof.
  destruct (empty_roster_fails_fast quiet_services "Who is coaching Berlin?"
                                    (mkSession (Some []) []))
    as [Hfind [msg Hq]].
  - right. reflexivity.
  - split; [apply Hfind|]. rewrite Hq. reflexivity.
Defined.

(** C5. Once a token, a club and a coach are found, the answer is the
    prompt whatever the intro client returns: no error text, the city, the
    club and the coach in it, and, when there is no biography, the sentence
    that says so. *)
Theorem missing_biography_still_answers
        (net : Services) (q : string) (st : Session)
        (t : string) (club : Club) (coach : Coach) (intro : option string) :
  extract_city q = Some t ->
  find_club_by_city (clubs_cache st) t = Some club ->
  get_coach_for_club net (sent st) (club_qid club) = Return (Some coach) ->
  get_coach_intro net (sent st ++ [GetCoachForClub (club_qid club)]) (name coach)
  = Return intro ->
  let prompt := build_prompt q (club_name club) (city club) (name coach) intro in
  fst (process_query net q st) = Return prompt /\
  startswith "ERROR" prompt = false /\
  contains ("City: " ++ city club) prompt = true /\
  contains ("Club: " ++ club_name club) prompt = true /\
  contains ("Current Coach: " ++ name coach) prompt = true /\
  (truthy intro = false -> contains no_biography prompt = true).
Proof.
  intros Et Ec Eco Ei prompt.
  pose proof (build_prompt_in_order q (club_name club) (city club) (name coach) intro)
    as Hord.
  pose proof (in_order_contains _ _ Hord) as Hin.
  split; [|split; [reflexivity|]].
  - unfold process_query, try_except, bind, call, get_cache, ret.
    rewrite Et, (extract_city_truthy _ _ Et). cbn [negb].
    rewrite Ec, Eco. cbn [clubs_cache sent]. rewrite Ei. reflexivity.
  - repeat split; try (apply Hin; cbn [In]; auto 10).
    intros Hno.
    replace no_biography with (biography_or_sentence intro)
      by (destruct intro as [[|c i]|]; [reflexivity | discriminate | reflexivity]).
    apply Hin. cbn [In]. auto 10.
Qed.

Lemma missing_biography_still_answers_witness :
  let prompt := build_prompt "Who is it for Pauli?" "FC St. Pauli" "Hamburg"
                             "Steffen Baumgart" None in
  fst (process_query quiet_services "Who is it for Pauli?" ready) = Return prompt /\
  contains no_biography prompt = true.
Proof.
  destruct (missing_biography_still_answers
              quiet_services "Who is it for Pauli?" ready
              "pauli" st_pauli baumgart None)
    as (Hq & _ & _ & _ & _ & Hno); try reflexivity.
  split; [exact Hq | exact (Hno eq_refl)].
Defined.

(** C7. The prompt begins with the system instruction block, which is
    followed, in this order and verbatim, by the city, the club, the coach,
    the biography or the sentence that stands for it, and the question as it
    was asked, on a line of its own under its heading. *)
Theorem prompt_sections_in_order
        (user_question club_name city coach_name : string)
        (coach_intro : option string) :
  let prompt := build_prompt user_question club_name city coach_name coach_intro in
  startswith _get_system_prompt prompt = true /\
  in_order [_get_system_prompt;
            "City: " ++ city;
            "Club: " ++ club_name;
            "Current Coach: " ++ coach_name;
            biography_or_sentence coach_intro;
            "USER QUESTION:" ++ nl ++ user_question ++ nl]
           prompt.
Proof.
  split.
  - unfold build_prompt. apply startswith_app.
  - apply build_prompt_in_order.
Qed.

(** C8, as the specification states it, fails on the code: the prompt of the
    scenario does not end with the question, the closing line of the template
    comes after it. *)
Lemma prompt_does_not_end_with_question :
  endswith ("USER QUESTION:" ++ nl ++ "Who is coaching Berlin?")
           (build_prompt "Who is coaching Berlin?" "1. FC Union Berlin" "Berlin"
                         "Steffen Baumgart" (Some baumgart_bio))
  = false.
Proof. vm_compute. reflexivity. Qed.

(** C8, amended.  In the scenario of Union Berlin the prompt contains
    "Current Coach: Steffen Baumgart" and the biography, and it ends with the
    heading, the question and the closing line of the template. *)
Theorem scenario_berlin_prompt (bio : string) :
  bio <> "" ->
  let prompt := build_prompt "Who is coaching Berlin?" "1. FC Union Berlin"
                             "Berlin" "Steffen Baumgart" (Some bio) in
  contains "Current Coach: Steffen Baumgart" prompt = true /\
  contains bio prompt = true /\
  endswith ("USER QUESTION:" ++ nl ++ "Who is coaching Berlin?" ++ nl ++ nl ++
            closing_line) prompt = true.
Proof.
  intros Hbio. destruct bio as [|c bio]; [contradiction|]. intros prompt.
  pose proof (in_order_contains _ _
                (build_prompt_in_order "Who is coaching Berlin?"
                   "1. FC Union Berlin" "Berlin" "Steffen Baumgart"
                   (Some (String c bio))))
    as Hin.
  split; [|split].
  - apply (Hin "Current Coach: Steffen Baumgart"). cbn [In]. auto 10.
  - apply (Hin (String c bio)). cbn [In biography_or_sentence]. auto 10.
  - apply build_prompt_ends.
Qed.

Lemma scenario_berlin_prompt_witness :
  let prompt := build_prompt "Who is coaching Berlin?" "1. FC Union Berlin"
                             "Berlin" "Steffen Baumgart" (Some baumgart_bio) in
  contains "Current Coach: Steffen Baumgart" prompt = true /\
  contains baumgart_bio prompt = true /\
  endswith ("USER QUESTION:" ++ nl ++ "Who is coaching Berlin?" ++ nl ++ nl ++
            closing_line) prompt = true.
Proof.
  apply (scenario_berlin_prompt baumgart_bio). discriminate.
Defined.

(** C9 fails on the code.  On "Who is heidenheims manager?" the group of the
    third pattern is "heidenheims": the greedy [\w+] takes the final "s"
    before the optional "s" is tried, and the match succeeds that way. *)
Theorem heidenheims_manager_keeps_s :
  search pat_manager (strip (lower "Who is heidenheims manager?"))
  = Some (mkMatch "heidenheims manager" (Some "heidenheims")) /\
  extract_city "Who is heidenheims manager?" = Some "heidenheims".
Proof. split; vm_compute; reflexivity. Qed.

End Properties.

(** ** More about the extractor *)

Module ExtractorProps.
Import PyStr Re EntityExtractor StrFacts ReFacts LowerFacts ManagerFacts.

(** The text stops a run of the class: it is over, or its first character is
    outside the class. *)
Local Abbreviation stops cls rest :=
  (match rest with
   | EmptyString => True
   | String c _ => cls c = false
   end).

Local Abbreviation keyword_pattern kw :=
  (Seq (Lit kw) (Seq (PlusCls is_space) (Group (PlusCls is_word)))).

Lemma all_chars_app (P : ascii -> bool) (a b : string) :
  all_chars P (a ++ b) = all_chars P a && all_chars P b.
Proof.
  induction a as [|c a IH]; simpl; [reflexivity|].
  now rewrite IH, andb_assoc.
Qed.

Lemma star_cls_answers {R : Type} (cls : ascii -> bool) (f : string -> R)
      (s : string) :
  star_cls cls s (fun rest => Some (f rest)) <> None.
Proof.
  induction s as [|c s IH]; cbn [star_cls]; [discriminate|].
  destruct (cls c); [|discriminate].
  destruct (star_cls cls s _); [discriminate | contradiction].
Qed.

(** A run in front of a continuation that always answers is the longest
    one. *)
Lemma star_cls_longest {R : Type} (cls : ascii -> bool) (f : string -> R)
      (s : string) (m : R) :
  star_cls cls s (fun rest => Some (f rest)) = Some m ->
  exists pre rest,
    s = pre ++ rest /\ all_chars cls pre = true /\ stops cls rest /\ m = f rest.
Proof.
  revert m. induction s as [|c s IH]; cbn [star_cls]; intros m H.
  - inversion H. now exists "", "".
  - destruct (cls c) eqn:Hc.
    + destruct (star_cls cls s _) as [m'|] eqn:E.
      * inversion H; subst m'.
        destruct (IH _ eq_refl) as (pre & rest & -> & Hall & Hstop & ->).
        exists (String c pre), rest. cbn [all_chars]. now rewrite Hc, Hall.
      * now destruct (star_cls_answers cls f s).
    + inversion H. now exists "", (String c s).
Qed.

(** The token at the end of a pattern: the longest run of the class. *)
Lemma token_run_inv (s0 r2 : string) (m : Match) :
  plus_cls is_word r2
    (fun r3 => Some (mkMatch (taken s0 r3) (Some (taken r2 r3)))) = Some m ->
  exists tok rest,
    r2 = tok ++ rest /\ tok <> "" /\ all_chars is_word tok = true /\
    stops is_word rest /\
    m = mkMatch (taken s0 rest) (Some tok).
Proof.
  destruct r2 as [|c r2]; cbn [plus_cls]; [discriminate|].
  destruct (is_word c) eqn:Hc; [|discriminate]. intros H.
  destruct (star_cls_longest is_word
              (fun r3 => mkMatch (taken s0 r3) (Some (taken (String c r2) r3)))
              r2 m H) as (pre & rest & -> & Hall & Hstop & ->).
  exists (String c pre), rest. cbn [all_chars]. rewrite Hc, Hall.
  repeat split; [discriminate | exact Hstop |].
  do 2 f_equal. exact (taken_app (String c pre) rest).
Qed.

(** The white space and the token after what came before them. *)
Lemma spaces_token_inv (s0 r1 : string) (g : option string) (m : Match) :
  rmatch (Seq (PlusCls is_space) (Group (PlusCls is_word))) r1 g
         (fun rest g' => Some (mkMatch (taken s0 rest) g')) = Some m ->
  exists ws tok rest,
    r1 = ws ++ tok ++ rest /\
    ws <> "" /\ all_chars is_space ws = true /\
    tok <> "" /\ all_chars is_word tok = true /\ stops is_word rest /\
    m = mkMatch (taken s0 rest) (Some tok).
Proof.
  cbn [rmatch]. intros H.
  destruct (plus_cls_inv _ _ _ _ H) as (ws & r2 & -> & Hws & Hsp & Hk).
  destruct (token_run_inv _ _ _ Hk) as (tok & rest & -> & Htok & Hw & Hstop & ->).
  now exists ws, tok, rest.
Qed.

Lemma rmatch_lit_seq {R : Type} (l : string) (r : regex) (s : string)
      (g : option string) (k : string -> option string -> option R) :
  rmatch (Seq (Lit l) r) s g k =
  match strip_lit l s with
  | Some rest => rmatch r rest g k
  | None => None
  end.
Proof. cbn [rmatch]. now destruct (strip_lit l s). Qed.

Lemma keyword_pattern_inv (kw s : string) (m : Match) :
  search (keyword_pattern kw) s = Some m ->
  exists before ws tok rest,
    s = before ++ kw ++ ws ++ tok ++ rest /\
    ws <> "" /\ all_chars is_space ws = true /\
    tok <> "" /\ all_chars is_word tok = true /\ stops is_word rest /\
    group0 m = kw ++ ws ++ tok /\ group1 m = Some tok.
Proof.
  intros H. destruct (search_inv _ _ _ H) as (before & s0 & -> & Hm).
  unfold match_here in Hm. rewrite rmatch_lit_seq in Hm.
  destruct (strip_lit kw s0) as [r1|] eqn:E; [|discriminate].
  apply strip_lit_inv in E. subst s0.
  destruct (spaces_token_inv _ _ _ _ Hm)
    as (ws & tok & rest & -> & Hws & Hsp & Htok & Hw & Hstop & ->).
  exists before, ws, tok, rest. cbn [group0 group1].
  repeat split; try assumption.
  replace (kw ++ ws ++ tok ++ rest) with ((kw ++ ws ++ tok) ++ rest)
    by (rewrite !append_assoc; reflexivity).
  apply taken_app.
Qed.

(** X4. In a text of ASCII characters a match of one of the patterns
    [about\s+(\w+)], [for\s+(\w+)] and [in\s+(\w+)] is the keyword, a run of
    white space and the token, and the token is the whole run of word
    characters there: after it the text ends or goes on with a character
    that is none. *)
Theorem keyword_match_shape (kw : string) (p : regex) (s : string) (m : Match) :
  Spec.is_ascii s = true ->
  In (kw, p) [("about", pat_about); ("for", pat_for); ("in", pat_in)] ->
  search p s = Some m ->
  exists before ws tok rest,
    s = before ++ kw ++ ws ++ tok ++ rest /\
    ws <> "" /\ all_chars is_space ws = true /\
    tok <> "" /\ all_chars is_word tok = true /\
    match rest with
    | EmptyString => True
    | String c _ => is_word c = false
    end /\
    group0 m = kw ++ ws ++ tok /\ group1 m = Some tok.
Proof.
  intros _ Hin H.
  destruct Hin as [E|[E|[E|[]]]]; inversion E; subst kw p;
    exact (keyword_pattern_inv _ _ _ H).
Qed.

Lemma keyword_match_shape_witness :
  exists before ws rest,
    "what about munich?" = before ++ "about" ++ ws ++ "munich" ++ rest /\
    search pat_about "what about munich?"
    = Some (mkMatch ("about" ++ ws ++ "munich") (Some "munich")).
Proof.
  destruct (keyword_match_shape "about" pat_about "what about munich?"
              (mkMatch "about munich" (Some "munich")))
    as (before & ws & tok & rest & Hs & _ & _ & _ & _ & _ & Hg0 & Hg1).
  - reflexivity.
  - simpl. auto.
  - vm_compute. reflexivity.
  - cbn [group0 group1] in Hg0, Hg1. inversion Hg1; subst tok.
    exists before, ws, rest. split; [exact Hs|].
    rewrite <- Hg0. vm_compute. reflexivity.
Defined.

Lemma coaching_pattern_inv (s : string) (m : Match) :
  search pat_coaching s = Some m ->
  exists before ing ws tok rest,
    (ing = "" \/ ing = "ing") /\
    s = before ++ "coach" ++ ing ++ ws ++ tok ++ rest /\
    ws <> "" /\ all_chars is_space ws = true /\
    tok <> "" /\ all_chars is_word tok = true /\
    match rest with
    | EmptyString => True
    | String c _ => is_word c = false
    end /\
    group0 m = "coach" ++ ing ++ ws ++ tok /\ group1 m = Some tok.
Proof.
  intros H. destruct (search_inv _ _ _ H) as (before & s0 & -> & Hm).
  unfold match_here, pat_coaching in Hm. rewrite rmatch_lit_seq in Hm.
  destruct (strip_lit "coach" s0) as [r0|] eqn:E; [|discriminate].
  apply strip_lit_inv in E. subst s0.
  change (rmatch (Seq (Opt (Lit "ing")) ?r) ?s ?g ?k)
    with (match (match strip_lit "ing" s with
                 | Some rest => rmatch r rest g k
                 | None => None
                 end) with
          | Some m' => Some m'
          | None => rmatch r s g k
          end) in Hm.
  assert (Hcase :
    (exists r1, r0 = "ing" ++ r1 /\
                rmatch (Seq (PlusCls is_space) (Group (PlusCls is_word))) r1 None
                  (fun rest g' => Some (mkMatch (taken ("coach" ++ r0) rest) g'))
                = Some m) \/
    rmatch (Seq (PlusCls is_space) (Group (PlusCls is_word))) r0 None
      (fun rest g' => Some (mkMatch (taken ("coach" ++ r0) rest) g')) = Some m).
  { destruct (strip_lit "ing" r0) as [r1|] eqn:E1; [|now right].
    apply strip_lit_inv in E1.
    destruct (rmatch _ r1 None _) as [m1|] eqn:E2; [|now right].
    left. exists r1. split; [exact E1|]. now rewrite <- Hm. }
  destruct Hcase as [(r1 & -> & Ht)|Ht];
    destruct (spaces_token_inv _ _ _ _ Ht)
      as (ws & tok & rest & -> & Hws & Hsp & Htok & Hw & Hstop & ->);
    [exists before, "ing", ws, tok, rest | exists before, "", ws, tok, rest];
    cbn [group0 group1]; (split; [auto|]); repeat split; try assumption.
  - replace ("coach" ++ "ing" ++ ws ++ tok ++ rest)
      with (("coach" ++ "ing" ++ ws ++ tok) ++ rest)
      by (rewrite !append_assoc; reflexivity).
    apply taken_app.
  - replace ("coach" ++ ws ++ tok ++ rest)
      with (("coach" ++ "" ++ ws ++ tok) ++ rest)
      by (rewrite !append_assoc; reflexivity).
    apply taken_app.
Qed.

(** X5. In a text of ASCII characters a match of [coach(?:ing)?\s+(\w+)] is
    "coach" or "coaching", a run of white space and the token, which is the
    whole run of word characters there. *)
Theorem coaching_match_shape (s : string) (m : Match) :
  Spec.is_ascii s = true ->
  search pat_coaching s = Some m ->
  exists before ing ws tok rest,
    (ing = "" \/ ing = "ing") /\
    s = before ++ "coach" ++ ing ++ ws ++ tok ++ rest /\
    ws <> "" /\ all_chars is_space ws = true /\
    tok <> "" /\ all_chars is_word tok = true /\
    match rest with
    | EmptyString => True
    | String c _ => is_word c = false
    end /\
    group0 m = "coach" ++ ing ++ ws ++ tok /\ group1 m = Some tok.
Proof. intros _. apply coaching_pattern_inv. Qed.

Lemma coaching_match_shape_witness :
  exists before ing ws rest,
    "who is coaching berlin?" = before ++ "coach" ++ ing ++ ws ++ "berlin" ++ rest /\
    search pat_coaching "who is coaching berlin?"
    = Some (mkMatch ("coach" ++ ing ++ ws ++ "berlin") (Some "berlin")).
Proof.
  destruct (coaching_match_shape "who is coaching berlin?"
              (mkMatch "coaching berlin" (Some "berlin")))
    as (before & ing & ws & tok & rest & _ & Hs & _ & _ & _ & _ & _ & Hg0 & Hg1).
  - reflexivity.
  - vm_compute. reflexivity.
  - cbn [group0 group1] in Hg0, Hg1. inversion Hg1; subst tok.
    exists before, ing, ws, rest. split; [exact Hs|].
    rewrite <- Hg0. vm_compute. reflexivity.
Defined.

Lemma manager_token_word (s : string) (m : Match) :
  search pat_manager s = Some m ->
  exists a tok b,
    s = a ++ tok ++ b /\ tok <> "" /\ all_chars is_word tok = true /\
    group1 m = Some tok.
Proof.
  intros H. destruct (search_inv _ _ _ H) as (before & s0 & -> & Hm).
  unfold match_here, pat_manager in Hm.
  change (rmatch (Seq (Group (PlusCls is_word)) ?r) ?s ?g ?k)
    with (plus_cls is_word s
            (fun rest => rmatch r rest (Some (taken s rest)) k)) in Hm.
  destruct (plus_cls_inv _ _ _ _ Hm) as (tok & r1 & -> & Htok & Hw & Hk).
  destruct (rmatch_inv _ _ _ _ _ Hk) as (pre & rest & g' & _ & Hf & Hg).
  rewrite (Hg eq_refl), taken_app in Hf. inversion Hf; subst m.
  now exists before, tok, r1.
Qed.

(** The groups of all five patterns are words of the text. *)
Lemma pattern_token_word (p : regex) (s : string) (m : Match) :
  In p patterns ->
  search p s = Some m ->
  exists a tok b,
    s = a ++ tok ++ b /\ tok <> "" /\ all_chars is_word tok = true /\
    group1 m = Some tok.
Proof.
  intros Hin H. unfold patterns in Hin.
  destruct Hin as [<-|[<-|[<-|[<-|[<-|[]]]]]].
  - destruct (coaching_pattern_inv _ _ H)
      as (before & ing & ws & tok & rest & _ & -> & _ & _ & Htok & Hw & _ & _ & Hg).
    exists (before ++ "coach" ++ ing ++ ws), tok, rest.
    rewrite !append_assoc. auto.
  - destruct (keyword_pattern_inv _ _ _ H)
      as (before & ws & tok & rest & -> & _ & _ & Htok & Hw & _ & _ & Hg).
    exists (before ++ "about" ++ ws), tok, rest. rewrite !append_assoc. auto.
  - exact (manager_token_word _ _ H).
  - destruct (keyword_pattern_inv _ _ _ H)
      as (before & ws & tok & rest & -> & _ & _ & Htok & Hw & _ & _ & Hg).
    exists (before ++ "for" ++ ws), tok, rest. rewrite !append_assoc. auto.
  - destruct (keyword_pattern_inv _ _ _ H)
      as (before & ws & tok & rest & -> & _ & _ & Htok & Hw & _ & _ & Hg).
    exists (before ++ "in" ++ ws), tok, rest. rewrite !append_assoc. auto.
Qed.

Lemma word_is_ascii (c : ascii) : is_word c = true -> (code c <? 128)%nat = true.
Proof. destruct c as [[] [] [] [] [] [] [] []]; vm_compute; congruence. Qed.

Lemma words_are_ascii (t : string) :
  all_chars is_word t = true -> Spec.is_ascii t = true.
Proof.
  unfold Spec.is_ascii. induction t as [|c t IH]; [reflexivity|].
  cbn [all_chars]. intros H. apply andb_true_iff in H as [Hc Ht].
  now rewrite (word_is_ascii c Hc), (IH Ht).
Qed.

(** X1. For a question of ASCII characters, a token that [extract_city]
    returns is not empty, is in lower case, consists of ASCII word
    characters only and stands in the lowered, stripped question. *)
Theorem extracted_token_is_clean (q t : string) :
  Spec.is_ascii q = true ->
  extract_city q = Some t ->
  t <> "" /\ lower t = t /\ all_chars is_word t = true /\
  Spec.is_ascii t = true /\
  contains t (strip (lower q)) = true.
Proof.
  intros _ H. pose proof (extract_city_lower _ _ H) as Hlow.
  unfold extract_city in H.
  destruct (extract_entity_from_pattern _ _ H) as (p & m & Hp & Hs & Hg).
  destruct (pattern_token_word _ _ _ Hp Hs) as (a & tok & b & Ha & Hne & Hw & Hg').
  rewrite Hg in Hg'. inversion Hg'; subst tok.
  split; [exact Hne|]. split; [exact Hlow|]. split; [exact Hw|].
  split; [now apply words_are_ascii|].
  rewrite Ha. apply contains_app.
Qed.

Lemma extracted_token_is_clean_witness :
  "pauli" <> "" /\ lower "pauli" = "pauli" /\ all_chars is_word "pauli" = true /\
  Spec.is_ascii "pauli" = true /\
  contains "pauli" (strip (lower "  Who is it for PAULI?  ")) = true.
Proof.
  apply (extracted_token_is_clean "  Who is it for PAULI?  " "pauli").
  - reflexivity.
  - vm_compute. reflexivity.
Defined.

Lemma has_spaces_inv {R : Type} (r : regex) :
  Spec.has_spaces r ->
  forall (s : string) (g : option string)
         (k : string -> option string -> option R) (m : R),
    rmatch r s g k = Some m ->
    exists a ws b, s = a ++ ws ++ b /\ ws <> "" /\ all_chars is_space ws = true.
Proof.
  induction 1 as [r|r1 r2 _ IH]; intros s g k m H; cbn [rmatch] in H.
  - destruct (plus_cls_inv _ _ _ _ H) as (ws & rest & -> & Hws & Hsp & _).
    now exists "", ws, rest.
  - destruct (rmatch_inv _ _ _ _ _ H) as (pre & rest & g' & -> & H2 & _).
    destruct (IH _ _ _ _ H2) as (a & ws & b & -> & Hws & Hsp).
    exists (pre ++ a), ws, b. now rewrite append_assoc.
Qed.

Lemma patterns_have_spaces (p : regex) : In p patterns -> Spec.has_spaces p.
Proof.
  unfold patterns. intros [<-|[<-|[<-|[<-|[<-|[]]]]]];
    repeat first [apply Spec.spaces_here | apply Spec.spaces_later].
Qed.

Lemma is_space_lower_char (c : ascii) : is_space (lower_char c) = is_space c.
Proof. destruct c as [[] [] [] [] [] [] [] []]; reflexivity. Qed.

Lemma no_space_lower (s : string) :
  all_chars (fun c => negb (is_space c)) (lower s)
  = all_chars (fun c => negb (is_space c)) s.
Proof.
  induction s as [|c s IH]; simpl; [reflexivity|].
  now rewrite is_space_lower_char, IH.
Qed.

Lemma no_space_piece (a ws b : string) :
  ws <> "" -> all_chars is_space ws = true ->
  all_chars (fun c => negb (is_space c)) (a ++ ws ++ b) = false.
Proof.
  intros Hne Hsp. rewrite !all_chars_app.
  destruct ws as [|c ws]; [contradiction|]. simpl in *.
  apply andb_true_iff in Hsp as [-> _]. simpl. apply andb_false_r.
Qed.

(** X2. A question of ASCII characters without any white space yields no
    token: each of the five patterns needs some between its keyword and the
    token. *)
Theorem no_whitespace_no_token (q : string) :
  Spec.is_ascii q = true ->
  all_chars (fun c => negb (is_space c)) q = true ->
  extract_city q = None.
Proof.
  intros _ Hq. destruct (extract_city q) as [t|] eqn:E; [exfalso|reflexivity].
  unfold extract_city in E.
  destruct (extract_entity_from_pattern _ _ E) as (p & m & Hp & Hs & _).
  destruct (search_inv _ _ _ Hs) as (before & s0 & Hcut & Hm).
  destruct (has_spaces_inv _ (patterns_have_spaces _ Hp) _ _ _ _ Hm)
    as (a & ws & b & -> & Hws & Hsp).
  destruct (strip_piece (lower q)) as (x & y & Hpiece).
  rewrite Hcut in Hpiece.
  rewrite <- no_space_lower, Hpiece in Hq.
  rewrite !all_chars_app in Hq.
  rewrite <- !all_chars_app in Hq.
  rewrite !all_chars_app in Hq.
  apply andb_true_iff in Hq as [_ Hq].
  apply andb_true_iff in Hq as [Hq _].
  apply andb_true_iff in Hq as [_ Hq].
  rewrite <- !all_chars_app in Hq.
  now rewrite (no_space_piece a ws b Hws Hsp) in Hq.
Qed.

Lemma no_whitespace_no_token_witness : extract_city "Berlin?" = None.
Proof. apply (no_whitespace_no_token "Berlin?"); reflexivity. Defined.

(** X3. For a question of ASCII characters: when the third pattern
    decides, the token runs up to the white space in front of "manager": the
    optional "s" of the pattern takes nothing away, a word that ends in "s"
    is returned with it. *)
Theorem manager_token_reaches_space (q : string) (m : Match) :
  Spec.is_ascii q = true ->
  search pat_coaching (strip (lower q)) = None ->
  search pat_about (strip (lower q)) = None ->
  search pat_manager (strip (lower q)) = Some m ->
  exists tok ws,
    extract_city q = Some tok /\ tok <> "" /\
    ws <> "" /\ all_chars is_space ws = true /\
    group0 m = tok ++ ws ++ "manager".
Proof.
  intros _ H1 H2 H3.
  destruct (manager_group_runs_to_space _ _ H3)
    as (tok & ws & Hg & Htok & Hws & Hsp & Hg0).
  exists tok, ws. repeat split; try assumption.
  unfold extract_city, _extract_entity_logic. now rewrite H1, H2, H3.
Qed.

Lemma manager_token_reaches_space_witness :
  exists tok ws,
    extract_city "Who is Bremens manager?" = Some tok /\
    "bremens manager" = tok ++ ws ++ "manager".
Proof.
  destruct (manager_token_reaches_space "Who is Bremens manager?"
              (mkMatch "bremens manager" (Some "bremens")))
    as (tok & ws & He & _ & _ & _ & Hg0); try (vm_compute; reflexivity).
  exists tok, ws. split; [exact He | exact Hg0].
Defined.

Lemma lstrip_spaces (ws : string) :
  all_chars is_space ws = true -> lstrip ws = "".
Proof.
  induction ws as [|c ws IH]; simpl; [reflexivity|].
  intros H. apply andb_true_iff in H as [-> H]. auto.
Qed.

Lemma lstrip_app_spaces (ws s : string) :
  all_chars is_space ws = true -> lstrip (ws ++ s) = lstrip s.
Proof.
  induction ws as [|c ws IH]; simpl; [reflexivity|].
  intros H. apply andb_true_iff in H as [-> H]. auto.
Qed.

Lemma rstrip_spaces (ws : string) :
  all_chars is_space ws = true -> rstrip ws = "".
Proof.
  induction ws as [|c ws IH]; simpl; [reflexivity|].
  intros H. apply andb_true_iff in H as [-> H]. now rewrite (IH H).
Qed.

Lemma rstrip_app_spaces (s ws : string) :
  all_chars is_space ws = true -> rstrip (s ++ ws) = rstrip s.
Proof.
  intros H. induction s as [|c s IH]; simpl.
  - now apply rstrip_spaces.
  - now rewrite IH.
Qed.

Lemma strip_app_spaces (s ws : string) :
  all_chars is_space ws = true -> strip (s ++ ws) = strip s.
Proof.
  intros H. unfold strip. induction s as [|c s IH]; simpl.
  - now rewrite (lstrip_spaces ws H).
  - destruct (is_space c); [exact IH|].
    exact (rstrip_app_spaces (String c s) ws H).
Qed.

Lemma spaces_lower (ws : string) :
  all_chars is_space (lower ws) = all_chars is_space ws.
Proof.
  induction ws as [|c ws IH]; simpl; [reflexivity|].
  now rewrite is_space_lower_char, IH.
Qed.

(** X6. White space in front of the question and after it makes no
    difference to the token. *)
Theorem surrounding_whitespace_ignored (ws1 q ws2 : string) :
  all_chars is_space ws1 = true ->
  all_chars is_space ws2 = true ->
  extract_city (ws1 ++ q ++ ws2) = extract_city q.
Proof.
  intros H1 H2. unfold extract_city. f_equal.
  rewrite !lower_app.
  rewrite <- spaces_lower in H1, H2.
  unfold strip at 1. rewrite (lstrip_app_spaces _ _ H1).
  exact (strip_app_spaces _ _ H2).
Qed.

Lemma surrounding_whitespace_ignored_witness :
  extract_city ("  " ++ "What about munich?" ++ String (ascii_of_nat 9) nl)
  = extract_city "What about munich?".
Proof.
  apply (surrounding_whitespace_ignored "  " "What about munich?"
                                        (String (ascii_of_nat 9) nl));
    reflexivity.
Defined.

End ExtractorProps.

(** ** More about the resolver and the orchestrator *)

Module OrchestratorProps.
Import PyStr EntityExtractor PromptBuilder Chatbot Spec Scenario.
Import StrFacts PromptFacts ReFacts ResolveFacts.

Lemma find_pauli_sound (roster : list Club) (c : Club) :
  find_pauli roster = Some c -> In c roster /\ has_pauli c = true.
Proof.
  unfold has_pauli. induction roster as [|d roster IH]; simpl; [discriminate|].
  destruct (contains "pauli" (lower (club_name d))) eqn:E.
  - intros H. inversion H; subst d. auto.
  - intros H. destruct (IH H). auto.
Qed.

Lemma find_by_city_or_name_none (t : string) (roster : list Club) :
  find_by_city_or_name t roster = None <->
  (forall c, In c roster -> club_matches t c = false).
Proof.
  unfold club_matches, city_matches.
  induction roster as [|d roster IH]; simpl.
  - split; [intros _ c [] | reflexivity].
  - destruct (contains t (lower (city d)) || contains (lower (city d)) t) eqn:E1.
    + split; [discriminate|]. intros H.
      specialize (H d (or_introl eq_refl)). rewrite E1 in H. discriminate.
    + destruct (contains t (lower (club_name d))) eqn:E2.
      * split; [discriminate|]. intros H.
        specialize (H d (or_introl eq_refl)). rewrite E1, E2 in H. discriminate.
      * rewrite IH. split.
        -- intros H c [<-|Hc]; [now rewrite E1, E2 | auto].
        -- intros H c Hc. auto.
Qed.

Lemma find_by_city_or_name_first (t : string) (pre post : list Club) (c : Club) :
  (forall d, In d pre -> club_matches t d = false) ->
  club_matches t c = true ->
  find_by_city_or_name t (pre ++ c :: post) = Some c.
Proof.
  unfold club_matches, city_matches.
  induction pre as [|d pre IH]; simpl; intros Hpre Hc.
  - apply orb_true_iff in Hc as [-> | ->]; [reflexivity|].
    now destruct (_ || _).
  - pose proof (Hpre d (or_introl eq_refl)) as Hd.
    apply orb_false_iff in Hd as [-> ->]. apply IH; auto.
Qed.

Lemma has_pauli_matches (c : Club) :
  has_pauli c = true -> club_matches "pauli" c = true.
Proof. unfold has_pauli, club_matches. intros ->. apply orb_true_r. Qed.

(** X7. A club that [find_club_by_city] returns is a club of the cached
    roster, and the token passes one of the three tests on it: it is in the
    lowered city, the lowered city is in it, or it is in the lowered name. *)
Theorem resolved_club_is_a_matching_roster_club
        (cache : option (list Club)) (t : string) (c : Club) :
  find_club_by_city cache t = Some c ->
  exists roster,
    cache = Some roster /\ In c roster /\ club_matches t c = true.
Proof.
  destruct cache as [roster|]; [|discriminate].
  intros H. exists roster. split; [reflexivity|].
  unfold find_club_by_city in H.
  destruct roster as [|d l] eqn:Er; [discriminate|]. rewrite <- Er in *.
  destruct (t =? "pauli") eqn:Et.
  - apply String.eqb_eq in Et. subst t.
    destruct (find_pauli roster) as [c'|] eqn:Ep.
    + inversion H; subst c'. destruct (find_pauli_sound _ _ Ep) as [Hin Hp].
      split; [exact Hin | now apply has_pauli_matches].
    + destruct (find_by_city_or_name_sound _ _ _ H) as [Hin Hm].
      split; [exact Hin|]. unfold club_matches.
      destruct Hm as [-> | ->]; [reflexivity | apply orb_true_r].
  - destruct (find_by_city_or_name_sound _ _ _ H) as [Hin Hm].
    split; [exact Hin|]. unfold club_matches.
    destruct Hm as [-> | ->]; [reflexivity | apply orb_true_r].
Qed.

Lemma resolved_club_is_a_matching_roster_club_witness :
  exists roster,
    Some [hamburger_sv; st_pauli] = Some roster /\ In hamburger_sv roster /\
    club_matches "hamburg" hamburger_sv = true.
Proof.
  apply (resolved_club_is_a_matching_roster_club
           (Some [hamburger_sv; st_pauli]) "hamburg" hamburger_sv).
  reflexivity.
Defined.

(** X8. [find_club_by_city] finds no club exactly when no club of the
    roster passes any of the three tests. *)
Theorem no_club_exactly_when_none_matches (roster : list Club) (t : string) :
  find_club_by_city (Some roster) t = None <->
  (forall c, In c roster -> club_matches t c = false).
Proof.
  unfold find_club_by_city.
  destruct roster as [|d l] eqn:Er.
  - split; [intros _ c [] | reflexivity].
  - rewrite <- Er. clear Er d l. split.
    + intros H.
      destruct (if t =? "pauli" then find_pauli roster else None); [discriminate|].
      now apply find_by_city_or_name_none.
    + intros H.
      assert (Hp : (if t =? "pauli" then find_pauli roster else None) = None).
      { destruct (t =? "pauli") eqn:Et; [|reflexivity].
        apply String.eqb_eq in Et. subst t.
        apply find_pauli_none. intros c Hc.
        destruct (has_pauli c) eqn:E; [|reflexivity].
        rewrite <- (H c Hc). symmetry. now apply has_pauli_matches. }
      rewrite Hp. now apply find_by_city_or_name_none.
Qed.

Lemma no_club_exactly_when_none_matches_witness :
  find_club_by_city (Some [union_berlin; hamburger_sv]) "munich" = None.
Proof.
  apply (no_club_exactly_when_none_matches [union_berlin; hamburger_sv] "munich").
  intros c [<-|[<-|[]]]; reflexivity.
Defined.

(** X9. For a token other than "pauli" the club returned is the first one
    in the order of the roster that passes one of the three tests. *)
Theorem first_matching_club_wins
        (t : string) (pre post : list Club) (c : Club) :
  t <> "pauli" ->
  (forall d, In d pre -> club_matches t d = false) ->
  club_matches t c = true ->
  find_club_by_city (Some (pre ++ c :: post)%list) t = Some c.
Proof.
  intros Ht Hpre Hc. unfold find_club_by_city.
  destruct (pre ++ c :: post)%list as [|d l] eqn:E.
  - destruct pre; discriminate.
  - rewrite <- E. apply String.eqb_neq in Ht. rewrite Ht.
    now apply find_by_city_or_name_first.
Qed.

Lemma first_matching_club_wins_witness :
  find_club_by_city (Some [union_berlin; hamburger_sv; st_pauli]) "hamburg"
  = Some hamburger_sv.
Proof.
  apply (first_matching_club_wins "hamburg" [union_berlin] [st_pauli] hamburger_sv).
  - discriminate.
  - intros d [<-|[]]. reflexivity.
  - reflexivity.
Defined.

(** A query leaves the cache alone and sends at most two requests. *)
Lemma process_query_footprint (net : Services) (q : string) (st : Session) :
  clubs_cache (snd (process_query net q st)) = clubs_cache st /\
  exists more,
    sent (snd (process_query net q st)) = (sent st ++ more)%list /\
    List.length more <= 2.
Proof.
  unfold process_query, try_except, bind, call, get_cache, ret.
  destruct (extract_city q) as [t|] eqn:Et.
  - rewrite (extract_city_truthy _ _ Et). cbn [negb].
    destruct (find_club_by_city (clubs_cache st) t) as [club|]; cbn [snd].
    + destruct (get_coach_for_club net (sent st) (club_qid club)) as [[coach|]|e];
        cbn [snd clubs_cache sent].
      * destruct (get_coach_intro net _ (name coach)); cbn [snd clubs_cache sent];
          (split; [reflexivity|]); eexists; rewrite <- app_assoc;
          (split; [reflexivity | simpl; lia]).
      * split; [reflexivity|]. eexists. split; [reflexivity | simpl; lia].
      * split; [reflexivity|]. eexists. split; [reflexivity | simpl; lia].
    + split; [reflexivity|]. exists []. rewrite app_nil_r.
      split; [reflexivity | simpl; lia].
  - cbn [truthy negb snd]. split; [reflexivity|]. exists []. rewrite app_nil_r.
    split; [reflexivity | simpl; lia].
Qed.

(** X10. A query sends nothing unless its question resolves to a club of
    the roster; then it asks for the coach of that club, and after that for
    the intro of the coach exactly when one came back.  The cache is not
    written. *)
Theorem requests_of_a_query (net : Services) (q : string) (st : Session) :
  snd (process_query net q st) =
  mkSession (clubs_cache st)
    (sent st ++
     match resolve_question (clubs_cache st) q with
     | None => []
     | Some club =>
         GetCoachForClub (club_qid club) ::
         match get_coach_for_club net (sent st) (club_qid club) with
         | Return (Some coach) => [GetCoachIntro (name coach)]
         | _ => []
         end
     end).
Proof.
  unfold process_query, try_except, bind, call, get_cache, ret, resolve_question.
  destruct st as [cache history]. cbn [clubs_cache sent].
  destruct (extract_city q) as [t|] eqn:Et.
  - rewrite (extract_city_truthy _ _ Et). cbn [negb clubs_cache sent].
    destruct (find_club_by_city cache t) as [club|]; cbn [snd clubs_cache sent].
    + destruct (get_coach_for_club net history (club_qid club)) as [[coach|]|e];
        cbn [snd clubs_cache sent]; [|reflexivity|reflexivity].
      destruct (get_coach_intro net _ (name coach));
        cbn [snd]; now rewrite <- app_assoc.
    + now rewrite app_nil_r.
  - cbn [truthy negb snd]. now rewrite app_nil_r.
Qed.

(** X11. Two casings of one question leave the same session behind: the
    same requests in the same order. *)
Theorem casing_does_not_change_requests
        (net : Services) (q1 q2 : string) (st : Session) :
  lower q1 = lower q2 ->
  snd (process_query net q1 st) = snd (process_query net q2 st).
Proof.
  intros H.
  assert (E : extract_city q1 = extract_city q2)
    by (unfold extract_city; now rewrite H).
  unfold process_query, try_except, bind, call, get_cache, ret. rewrite E.
  destruct (extract_city q2) as [t|] eqn:Et; [|reflexivity].
  rewrite (extract_city_truthy _ _ Et). cbn [negb].
  destruct (find_club_by_city (clubs_cache st) t) as [club|]; [|reflexivity].
  destruct (get_coach_for_club net (sent st) (club_qid club)) as [[coach|]|e];
    [|reflexivity|reflexivity].
  cbn [clubs_cache sent].
  now destruct (get_coach_intro net _ (name coach)).
Qed.

Lemma casing_does_not_change_requests_witness :
  sent (snd (process_query quiet_services "WHO IS COACHING BERLIN?" ready))
  = [GetCoachForClub "Q141971"; GetCoachIntro "Steffen Baumgart"] /\
  snd (process_query quiet_services "who is coaching berlin?" ready)
  = snd (process_query quiet_services "WHO IS COACHING BERLIN?" ready).
Proof.
  split; [reflexivity|].
  apply (casing_does_not_change_requests quiet_services
           "who is coaching berlin?" "WHO IS COACHING BERLIN?" ready).
  reflexivity.
Defined.

(** X12. [initialize_clubs_data] lets no exception out and sends the one
    request for the clubs.  It reports success exactly when a list that is
    not empty came back, which is then the cache; an empty list is cached as
    it is and an exception leaves the cache absent, both reported as
    failure. *)
Theorem initialization_outcome (net : Services) (st : Session) :
  exists ok st',
    initialize_clubs_data net st = (Return ok, st') /\
    sent st' = (sent st ++ [GetBundesligaClubs])%list /\
    match get_bundesliga_clubs net (sent st) with
    | Return (c :: clubs) => ok = true /\ clubs_cache st' = Some (c :: clubs)
    | Return [] => ok = false /\ clubs_cache st' = Some []
    | Raise _ => ok = false /\ clubs_cache st' = None
    end.
Proof.
  unfold initialize_clubs_data, try_except, bind, call, set_cache, ret.
  destruct (get_bundesliga_clubs net (sent st)) as [[|c clubs]|e];
    cbn [clubs_cache sent]; eexists; eexists; repeat split.
Qed.

Lemma query_on_empty_cache (net : Services) (q : string) (st : Session) :
  clubs_cache st = None \/ clubs_cache st = Some [] ->
  exists msg, process_query net q st = (Return (_format_error_response msg), st).
Proof.
  intros Hcache.
  unfold process_query, try_except, bind, get_cache, ret.
  destruct (extract_city q) as [t|] eqn:Et.
  - rewrite (extract_city_truthy _ _ Et). cbn [negb].
    rewrite (find_club_empty _ t Hcache). now exists (msg_no_club t).
  - cbn [truthy negb]. now exists msg_no_city.
Qed.

(** X13. After an initialization that reported failure every question is
    answered with an error text and without a request. *)
Theorem failed_setup_blocks_queries (net : Services) (st : Session) (q : string) :
  fst (initialize_clubs_data net st) = Return false ->
  exists msg,
    process_query net q (snd (initialize_clubs_data net st))
    = (Return (_format_error_response msg), snd (initialize_clubs_data net st)).
Proof.
  intros Hfail. apply query_on_empty_cache.
  destruct (failed_initialization net st) as (ok & st' & E & Hcache).
  rewrite E in *. cbn [fst snd] in *. apply Hcache. congruence.
Qed.

Lemma failed_setup_blocks_queries_witness :
  exists msg,
    process_query (mkServices (fun _ => Raise (Exception "timeout"))
                              (get_coach_for_club quiet_services)
                              (get_coach_intro quiet_services))
                  "Who is coaching Berlin?"
                  (mkSession None [GetBundesligaClubs])
    = (Return (_format_error_response msg), mkSession None [GetBundesligaClubs]).
Proof.
  apply (failed_setup_blocks_queries
           (mkServices (fun _ => Raise (Exception "timeout"))
                       (get_coach_for_club quiet_services)
                       (get_coach_intro quiet_services))
           (mkSession None []) "Who is coaching Berlin?").
  reflexivity.
Defined.

End OrchestratorProps.

(** ** The two clients *)

Module ClientProps.
Import PyStr Chatbot Spec StrFacts ResolveFacts.
Import WikidataClient.

Lemma split_not_empty (sep : ascii) (s : string) : split sep s <> [].
Proof.
  destruct s as [|c s]; simpl; [discriminate|].
  destruct (Ascii.eqb c sep); [discriminate|].
  destruct (split sep s); discriminate.
Qed.

(** [sep.join(s.split(sep))] is [s]. *)
Lemma join_split (sep : ascii) (s : string) :
  join (String sep "") (split sep s) = s.
Proof.
  induction s as [|c s IH]; simpl; [reflexivity|].
  destruct (Ascii.eqb c sep) eqn:E.
  - apply Ascii.eqb_eq in E. subst c.
    destruct (split sep s) as [|p ps] eqn:Es; [now destruct (split_not_empty sep s)|].
    cbn [join]. cbn [join] in IH. now rewrite IH.
  - destruct (split sep s) as [|p ps] eqn:Es; [now destruct (split_not_empty sep s)|].
    destruct ps as [|p' ps]; cbn [join] in *; now rewrite <- IH.
Qed.

Lemma endswith_last_of_join (sep : string) (pieces : list string) :
  endswith (last_piece pieces) (join sep pieces) = true.
Proof.
  unfold last_piece. induction pieces as [|p ps IH]; [reflexivity|].
  destruct ps as [|p' ps]; [apply endswith_refl|].
  change (endswith (List.last (p' :: ps) "") (p ++ sep ++ join sep (p' :: ps)) = true).
  now apply endswith_skip, endswith_skip.
Qed.

Lemma endswith_last_piece (sep : ascii) (s : string) :
  endswith (last_piece (split sep s)) s = true.
Proof.
  rewrite <- (join_split sep s) at 2. apply endswith_last_of_join.
Qed.

Lemma contains_char (sep c : ascii) (s : string) :
  contains (String sep "") (String c s)
  = Ascii.eqb sep c || contains (String sep "") s.
Proof. cbn [contains startswith]. now rewrite andb_true_r. Qed.

Lemma last_piece_no_sep (sep : ascii) (s : string) :
  contains (String sep "") (last_piece (split sep s)) = false.
Proof.
  unfold last_piece. induction s as [|c s IH]; [reflexivity|].
  cbn [split]. destruct (Ascii.eqb c sep) eqn:E.
  - destruct (split sep s) as [|p ps] eqn:Es; [now destruct (split_not_empty sep s)|].
    exact IH.
  - destruct (split sep s) as [|p ps] eqn:Es; [now destruct (split_not_empty sep s)|].
    destruct ps as [|p' ps]; [|exact IH].
    cbn [List.last] in *. rewrite contains_char, IH.
    now rewrite Ascii.eqb_sym, E.
Qed.

Lemma split_without_sep (sep : ascii) (s : string) :
  contains (String sep "") s = false -> split sep s = [s].
Proof.
  induction s as [|c s IH]; [reflexivity|].
  rewrite contains_char. intros H. apply orb_false_iff in H as [Hc Hs].
  cbn [split]. rewrite Ascii.eqb_sym, Hc. now rewrite (IH Hs).
Qed.

Lemma last_piece_after_sep (sep : ascii) (base q : string) :
  last_piece (split sep (base ++ String sep q)) = last_piece (split sep q).
Proof.
  unfold last_piece. induction base as [|c base IH]; cbn [append split].
  - rewrite Ascii.eqb_refl.
    destruct (split sep q) as [|p ps] eqn:Es; [now destruct (split_not_empty sep q)|].
    reflexivity.
  - destruct (split sep (base ++ String sep q)) as [|p ps] eqn:Es;
      [now destruct (split_not_empty sep (base ++ String sep q))|].
    destruct ps as [|p' ps].
    + exfalso. clear IH.
      assert (Hlen : List.length (split sep (base ++ String sep q)) >= 2).
      { clear Es. induction base as [|d base IHb]; cbn [append split].
        - rewrite Ascii.eqb_refl.
          destruct (split sep q) eqn:Eq; [now destruct (split_not_empty sep q)|].
          simpl. lia.
        - destruct (Ascii.eqb d sep); [simpl; lia|].
          destruct (split sep (base ++ String sep q)); simpl in *; lia. }
      rewrite Es in Hlen. simpl in Hlen. lia.
    + destruct (Ascii.eqb c sep); exact IH.
Qed.

Lemma qid_of_uri_no_slash (uri : string) :
  contains "/" (qid_of_uri uri) = false.
Proof.
  unfold qid_of_uri. destruct (nonempty uri); [|reflexivity].
  apply (last_piece_no_sep "/"%char).
Qed.

Lemma qid_of_uri_ends (uri : string) :
  endswith (qid_of_uri uri) uri = true.
Proof.
  unfold qid_of_uri. destruct uri as [|c uri]; [reflexivity|].
  cbn [nonempty]. apply (endswith_last_piece "/"%char).
Qed.

Lemma nonempty_true (s : string) : nonempty s = true -> s <> "".
Proof. destruct s; [discriminate | discriminate]. Qed.

Lemma club_of_binding_well_formed (b : Binding) (c : Club) :
  club_of_binding b = Some c -> well_formed_club c.
Proof.
  unfold club_of_binding, well_formed_club.
  destruct (nonempty (value_of b "clubLabel")) eqn:En; [|discriminate].
  destruct (nonempty (qid_of_uri (value_of b "club"))) eqn:Eq; [|discriminate].
  cbn [andb]. intros H. inversion H; subst c; clear H. cbn.
  repeat split.
  - now apply nonempty_true.
  - destruct (nonempty (value_of b "cityLabel")) eqn:Ec;
      [now apply nonempty_true | discriminate].
  - now apply nonempty_true.
  - apply qid_of_uri_no_slash.
  - apply qid_of_uri_ends.
Qed.

Lemma clubs_of_bindings_in (rows : list Binding) (c : Club) :
  In c (clubs_of_bindings rows) ->
  exists b, In b rows /\ club_of_binding b = Some c.
Proof.
  induction rows as [|b rows IH]; simpl; [contradiction|].
  destruct (club_of_binding b) as [c'|] eqn:E.
  - intros [<-|H]; [eauto|]. destruct (IH H) as (b' & Hin & Hb). eauto.
  - intros H. destruct (IH H) as (b' & Hin & Hb). eauto.
Qed.

Lemma clubs_of_bindings_app (rows1 rows2 : list Binding) :
  clubs_of_bindings (rows1 ++ rows2)
  = (clubs_of_bindings rows1 ++ clubs_of_bindings rows2)%list.
Proof.
  induction rows1 as [|b rows1 IH]; simpl; [reflexivity|].
  destruct (club_of_binding b); simpl; now rewrite IH.
Qed.

(** X14. Every club that [_process_club_results] returns has a name, a
    city and an identifier that are not empty; the identifier contains no
    slash and is the end of the URI of the club. *)
Theorem processed_clubs_are_well_formed (response : Response) (c : Club) :
  In c (_process_club_results response) -> well_formed_club c.
Proof.
  unfold _process_club_results.
  destruct (results response) as [r|]; [|contradiction].
  destruct (bindings r) as [rows|]; [|contradiction].
  intros H. destruct (clubs_of_bindings_in _ _ H) as (b & _ & Hb).
  exact (club_of_binding_well_formed _ _ Hb).
Qed.

Lemma processed_clubs_are_well_formed_witness :
  _process_club_results
    (ClientScenario.response_of
       [ClientScenario.nameless_row; ClientScenario.homeless_row])
  = [mkClub "Hamburger SV" "Unknown"
            "http://www.wikidata.org/entity/Q51974" "Q51974"] /\
  well_formed_club (mkClub "Hamburger SV" "Unknown"
                           "http://www.wikidata.org/entity/Q51974" "Q51974").
Proof.
  split; [reflexivity|].
  apply (processed_clubs_are_well_formed
           (ClientScenario.response_of
              [ClientScenario.nameless_row; ClientScenario.homeless_row])).
  simpl. auto.
Defined.

(** X15. A row without a label for the club, or without an identifier at
    the end of its URI, is left out and changes nothing for the rows around
    it: they give the clubs they give without it, in the same order. *)
Theorem partial_row_is_dropped (before after : list Binding) (row : Binding) :
  value_of row "clubLabel" = "" \/ qid_of_uri (value_of row "club") = "" ->
  _process_club_results
    (mkResponse (Some (mkResults (Some (before ++ row :: after)%list))))
  = _process_club_results
      (mkResponse (Some (mkResults (Some (before ++ after)%list)))).
Proof.
  intros H. cbn [_process_club_results results bindings].
  rewrite !clubs_of_bindings_app. f_equal. cbn [clubs_of_bindings].
  assert (E : club_of_binding row = None).
  { unfold club_of_binding. destruct H as [-> | ->]; cbn [nonempty andb];
      [reflexivity | now rewrite andb_false_r]. }
  now rewrite E.
Qed.

Lemma partial_row_is_dropped_witness :
  _process_club_results
    (ClientScenario.response_of
       [ClientScenario.union_row; ClientScenario.nameless_row;
        ClientScenario.homeless_row])
  = _process_club_results
      (ClientScenario.response_of
         [ClientScenario.union_row; ClientScenario.homeless_row]).
Proof.
  apply (partial_row_is_dropped [ClientScenario.union_row]
           [ClientScenario.homeless_row] ClientScenario.nameless_row).
  left. reflexivity.
Defined.

(** X16. The identifier after the last slash of an entity URI is read back
    as it is, provided it has no slash itself. *)
Theorem qid_of_entity_uri (base q : string) :
  contains "/" q = false ->
  qid_of_uri (base ++ "/" ++ q) = q.
Proof.
  intros H. unfold qid_of_uri.
  assert (E : nonempty (base ++ "/" ++ q) = true) by (now destruct base).
  rewrite E.
  change (base ++ "/" ++ q) with (base ++ String "/" q).
  rewrite (last_piece_after_sep "/"%char base q).
  now rewrite (split_without_sep "/"%char q H).
Qed.

Lemma qid_of_entity_uri_witness :
  qid_of_uri ("http://www.wikidata.org/entity" ++ "/" ++ "Q141971") = "Q141971".
Proof.
  apply (qid_of_entity_uri "http://www.wikidata.org/entity" "Q141971").
  reflexivity.
Defined.

(** X17. [_process_coach_results] reads the first row only: the rows after
    it change nothing, also when the first one has no label and a later one
    has.  A coach it returns has a name that is not empty, the label of that
    row. *)
Theorem coach_is_read_from_first_row (row : Binding) (others : list Binding) :
  _process_coach_results
    (mkResponse (Some (mkResults (Some (row :: others)))))
  = _process_coach_results (mkResponse (Some (mkResults (Some [row])))) /\
  (forall coach,
      _process_coach_results
        (mkResponse (Some (mkResults (Some (row :: others))))) = Some coach ->
      name coach <> "" /\
      name coach = value_of row "coachLabel" /\
      qid coach = qid_of_uri (value_of row "coach")).
Proof.
  split; [reflexivity|].
  cbn [_process_coach_results results bindings]. intros coach.
  destruct (nonempty (value_of row "coachLabel")) eqn:E; [|discriminate].
  intros H. inversion H; subst coach. cbn [name qid].
  repeat split. now apply nonempty_true.
Qed.

Lemma coach_is_read_from_first_row_witness :
  _process_coach_results
    (ClientScenario.response_of
       [ClientScenario.baumgart_row; ClientScenario.older_coach_row])
  = Some (mkCoach "Steffen Baumgart" "Q66432") /\
  _process_coach_results
    (ClientScenario.response_of
       [ClientScenario.nameless_row; ClientScenario.baumgart_row])
  = None.
Proof.
  split.
  - destruct (coach_is_read_from_first_row ClientScenario.baumgart_row
                [ClientScenario.older_coach_row]) as [-> _].
    reflexivity.
  - destruct (coach_is_read_from_first_row ClientScenario.nameless_row
                [ClientScenario.baumgart_row]) as [-> _].
    reflexivity.
Defined.

(** X18. With the Wikidata client in front of whatever endpoint, a
    successful [initialize_clubs_data] caches well-formed clubs only. *)
Theorem wired_roster_is_well_formed
        (endpoint : Endpoint) (http : WikipediaClient.Http) (st : Session)
        (c : Club) :
  fst (initialize_clubs_data (Wired.services endpoint http) st) = Return true ->
  (exists roster,
      clubs_cache (snd (initialize_clubs_data (Wired.services endpoint http) st))
      = Some roster /\ In c roster) ->
  well_formed_club c.
Proof.
  unfold initialize_clubs_data, try_except, bind, call, set_cache, ret.
  cbn [Wired.services Chatbot.get_bundesliga_clubs].
  unfold get_bundesliga_clubs.
  destruct (endpoint (sent st) ClubsQuery) as [response|e]; cbn [fst snd clubs_cache].
  - destruct (_process_club_results response) as [|c0 clubs] eqn:E;
      cbn [fst snd clubs_cache]; [discriminate|].
    intros _ (roster & Hr & Hin). inversion Hr; subst roster.
    apply (processed_clubs_are_well_formed response). now rewrite E.
  - discriminate.
Qed.

Lemma wired_roster_is_well_formed_witness :
  well_formed_club (mkClub "1. FC Union Berlin" "Berlin"
                           "http://www.wikidata.org/entity/Q141971" "Q141971").
Proof.
  apply (wired_roster_is_well_formed
           (fun _ _ => Return (ClientScenario.response_of
                                 [ClientScenario.union_row;
                                  ClientScenario.nameless_row]))
           (fun _ _ => Raise (Exception "offline"))
           (mkSession None [])).
  - reflexivity.
  - eexists. split; [reflexivity|]. simpl. auto.
Defined.

Lemma rstrip_cons (c : ascii) (r : string) :
  is_space c = false -> rstrip (String c r) = String c (rstrip r).
Proof. intros H. cbn [rstrip]. rewrite H. now destruct (rstrip r). Qed.

Lemma rstrip_idem (s : string) : rstrip (rstrip s) = rstrip s.
Proof.
  induction s as [|c s IH]; [reflexivity|].
  cbn [rstrip]. destruct (rstrip s) as [|d r] eqn:E.
  - destruct (is_space c) eqn:Hc; [reflexivity|].
    cbn [rstrip]. now rewrite Hc.
  - cbn [rstrip]. cbn [rstrip] in IH.
    destruct (match rstrip r with
              | "" => if is_space d then "" else String d ""
              | String a s0 => String d (String a s0)
              end) eqn:E2; [discriminate IH|].
    now rewrite <- IH.
Qed.

Lemma lstrip_head (s : string) :
  lstrip s = "" \/ exists c r, lstrip s = String c r /\ is_space c = false.
Proof.
  induction s as [|c s IH]; simpl; [now left|].
  destruct (is_space c) eqn:E; [exact IH|]. right. now exists c, s.
Qed.

(** [strip] of a stripped text is the text. *)
Lemma strip_idem (s : string) : strip (strip s) = strip s.
Proof.
  unfold strip. destruct (lstrip_head s) as [->|(c & r & -> & Hc)]; [reflexivity|].
  rewrite (rstrip_cons c r Hc). cbn [lstrip]. rewrite Hc.
  rewrite <- (rstrip_cons c r Hc). apply rstrip_idem.
Qed.

Import WikipediaClient.

(** Pages the loop passes over: not the marker of a missing page, and
    without an extract. *)
Local Abbreviation passed_over item :=
  (fst item <> "-1" /\
   (dict_get (snd item) "extract" = None \/ dict_get (snd item) "extract" = Some "")).

Lemma intro_of_pages_skip (before rest : list (string * PageData)) :
  (forall item, In item before -> passed_over item) ->
  intro_of_pages (before ++ rest) = intro_of_pages rest.
Proof.
  induction before as [|[page_id page_data] before IH]; intros H; [reflexivity|].
  cbn [app intro_of_pages].
  destruct (H (page_id, page_data) (or_introl eq_refl)) as [Hid Hex].
  cbn [fst snd] in Hid, Hex. apply String.eqb_neq in Hid. rewrite Hid.
  assert (E : nonempty match dict_get page_data "extract" with
                       | Some text => text
                       | None => ""
                       end = false)
    by (destruct Hex as [-> | ->]; reflexivity).
  rewrite E. apply IH. intros item Hin. apply H. now right.
Qed.

Lemma intro_of_pages_stripped (items : list (string * PageData)) (text : string) :
  intro_of_pages items = Some text -> strip text = text.
Proof.
  induction items as [|[page_id page_data] items IH]; cbn [intro_of_pages];
    [discriminate|].
  destruct (page_id =? "-1"); [discriminate|].
  destruct (nonempty _); [|exact IH].
  intros H. inversion H. apply strip_idem.
Qed.

(** X19. An intro that [_extract_intro_from_response] returns has no white
    space at its ends. *)
Theorem intro_is_stripped (data : Data) (text : string) :
  _extract_intro_from_response data = Some text -> strip text = text.
Proof.
  unfold _extract_intro_from_response.
  destruct (query data) as [q|]; [|discriminate].
  destruct (pages q) as [items|]; [|discriminate].
  apply intro_of_pages_stripped.
Qed.

Lemma intro_is_stripped_witness :
  _extract_intro_from_response
    (ClientScenario.pages_data [("4711", ClientScenario.baumgart_page)])
  = Some "Steffen Baumgart is a German football manager..." /\
  strip "Steffen Baumgart is a German football manager..."
  = "Steffen Baumgart is a German football manager...".
Proof.
  split; [reflexivity|].
  apply (intro_is_stripped
           (ClientScenario.pages_data [("4711", ClientScenario.baumgart_page)])).
  reflexivity.
Defined.

(** X20. The page with the id "-1" ends the search with nothing, whatever
    pages come after it, when the pages in front of it have no extract. *)
Theorem missing_page_gives_no_intro
        (before after : list (string * PageData)) (page_data : PageData) :
  (forall item, In item before ->
                fst item <> "-1" /\
                (dict_get (snd item) "extract" = None \/
                 dict_get (snd item) "extract" = Some "")) ->
  _extract_intro_from_response
    (mkData (Some (mkQuery (Some (before ++ ("-1", page_data) :: after)%list))))
  = None.
Proof.
  intros H. cbn [_extract_intro_from_response query pages].
  now rewrite (intro_of_pages_skip before _ H).
Qed.

Lemma missing_page_gives_no_intro_witness :
  _extract_intro_from_response
    (ClientScenario.pages_data
       [("12", ClientScenario.empty_page); ("-1", ClientScenario.missing_page);
        ("4711", ClientScenario.baumgart_page)])
  = None.
Proof.
  apply (missing_page_gives_no_intro
           [("12", ClientScenario.empty_page)]
           [("4711", ClientScenario.baumgart_page)] ClientScenario.missing_page).
  intros item [<-|[]]. split; [discriminate | now left].
Defined.

(** X21. The first page with an extract gives the intro, stripped, when the
    pages in front of it have none and none of them is the page "-1". *)
Theorem first_extract_is_the_intro
        (before after : list (string * PageData))
        (page_id : string) (page_data : PageData) (extract : string) :
  (forall item, In item before ->
                fst item <> "-1" /\
                (dict_get (snd item) "extract" = None \/
                 dict_get (snd item) "extract" = Some "")) ->
  page_id <> "-1" ->
  dict_get page_data "extract" = Some extract ->
  extract <> "" ->
  _extract_intro_from_response
    (mkData (Some (mkQuery (Some (before ++ (page_id, page_data) :: after)%list))))
  = Some (strip extract).
Proof.
  intros H Hid Hex Hne. cbn [_extract_intro_from_response query pages].
  rewrite (intro_of_pages_skip before _ H). cbn [intro_of_pages].
  apply String.eqb_neq in Hid. rewrite Hid, Hex.
  destruct extract; [contradiction | reflexivity].
Qed.

Lemma first_extract_is_the_intro_witness :
  _extract_intro_from_response
    (ClientScenario.pages_data
       [("12", ClientScenario.empty_page); ("4711", ClientScenario.baumgart_page);
        ("-1", ClientScenario.missing_page)])
  = Some "Steffen Baumgart is a German football manager...".
Proof.
  apply (first_extract_is_the_intro
           [("12", ClientScenario.empty_page)]
           [("-1", ClientScenario.missing_page)]
           "4711" ClientScenario.baumgart_page
           (String (ascii_of_nat 10)
                   "Steffen Baumgart is a German football manager... ")).
  - intros item [<-|[]]. split; [discriminate | now left].
  - discriminate.
  - reflexivity.
  - discriminate.
Defined.

Lemma strip_spaces (ws : string) :
  Re.all_chars is_space ws = true -> strip ws = "".
Proof. intros H. unfold strip. now rewrite (ExtractorProps.lstrip_spaces ws H). Qed.

(** X22. Whatever the HTTP call does, what the context block shows for the
    biography of the Wikipedia client is a text that is not empty and has no
    white space at its ends: the intro, or the sentence that there is none.
    When the extract that decides consists of ASCII white space only, it is
    the sentence. *)
Theorem shown_biography_is_never_blank
        (http : Http) (history : list request) (coach_name : string) :
  let shown := biography_or_sentence (get_coach_intro http history coach_name) in
  shown <> "" /\ strip shown = shown /\
  (forall (before after : list (string * PageData))
          (page_id : string) (page_data : PageData) (extract : string),
      http history coach_name
      = Return (mkData (Some (mkQuery
                 (Some (before ++ (page_id, page_data) :: after)%list)))) ->
      (forall item, In item before ->
                    fst item <> "-1" /\
                    (dict_get (snd item) "extract" = None \/
                     dict_get (snd item) "extract" = Some "")) ->
      page_id <> "-1" ->
      dict_get page_data "extract" = Some extract ->
      extract <> "" ->
      Re.all_chars is_space extract = true ->
      shown = PromptBuilder.no_biography).
Proof.
  cbv zeta. split; [|split].
  - unfold get_coach_intro, _extract_intro_from_response.
    destruct (http history coach_name) as [data|e]; [|discriminate].
    destruct (query data) as [q|]; [|discriminate].
    destruct (pages q) as [items|]; [|discriminate].
    destruct (intro_of_pages items) as [[|c text]|]; discriminate.
  - unfold get_coach_intro, _extract_intro_from_response.
    destruct (http history coach_name) as [data|e]; [|reflexivity].
    destruct (query data) as [q|]; [|reflexivity].
    destruct (pages q) as [items|]; [|reflexivity].
    destruct (intro_of_pages items) as [[|c text]|] eqn:E;
      cbn [biography_or_sentence]; try reflexivity.
    exact (intro_of_pages_stripped items _ E).
  - intros before after page_id page_data extract Hh Hbefore Hid Hex Hne Hsp.
    unfold get_coach_intro. rewrite Hh.
    cbn [_extract_intro_from_response query pages].
    rewrite (intro_of_pages_skip before _ Hbefore). cbn [intro_of_pages].
    apply String.eqb_neq in Hid. rewrite Hid, Hex.
    destruct extract as [|c extract]; [contradiction|]. cbn [nonempty].
    now rewrite (strip_spaces _ Hsp).
Qed.

Lemma shown_biography_is_never_blank_witness :
  biography_or_sentence
    (get_coach_intro
       (fun _ _ => Return (ClientScenario.pages_data
                             [("12", ClientScenario.empty_page);
                              ("7", [("extract", "   ")])]))
       [] "Steffen Baumgart")
  = PromptBuilder.no_biography.
Proof.
  destruct (shown_biography_is_never_blank
              (fun _ _ => Return (ClientScenario.pages_data
                                    [("12", ClientScenario.empty_page);
                                     ("7", [("extract", "   ")])]))
              [] "Steffen Baumgart") as (_ & _ & H).
  apply (H [("12", ClientScenario.empty_page)] [] "7" [("extract", "   ")] "   ").
  - reflexivity.
  - intros item [<-|[]]. split; [discriminate | now left].
  - discriminate.
  - reflexivity.
  - discriminate.
  - reflexivity.
Defined.

(** X27. The alternative Wikipedia client gives what the first one gives:
    whatever the package does, the intro it returns has no white space at
    its ends, and what the context block shows for it is never empty. *)
Theorem alternative_client_same_guarantee
        (wiki : WikipediaAlternative.Wiki) (history : list request)
        (coach_name : string) :
  (forall text,
      WikipediaAlternative.get_coach_intro wiki history coach_name = Some text ->
      strip text = text) /\
  biography_or_sentence
    (WikipediaAlternative.get_coach_intro wiki history coach_name) <> "" /\
  strip (biography_or_sentence
           (WikipediaAlternative.get_coach_intro wiki history coach_name))
  = biography_or_sentence
      (WikipediaAlternative.get_coach_intro wiki history coach_name).
Proof.
  unfold WikipediaAlternative.get_coach_intro.
  destruct (wiki history coach_name) as [[summary|]|e];
    try (split; [intros text H; discriminate H | split; [discriminate | reflexivity]]).
  destruct (nonempty summary);
    [|split; [intros text H; discriminate H | split; [discriminate | reflexivity]]].
  split; [intros text H; inversion H; apply strip_idem|].
  cbn [biography_or_sentence].
  destruct (strip summary) as [|c text] eqn:E;
    [split; [discriminate | reflexivity]|].
  split; [discriminate|]. rewrite <- E. apply strip_idem.
Qed.

Lemma alternative_client_same_guarantee_witness :
  WikipediaAlternative.get_coach_intro
    (fun _ _ => Return (Some "  Steffen Baumgart is a German football manager... "))
    [] "Steffen Baumgart"
  = Some "Steffen Baumgart is a German football manager..." /\
  strip "Steffen Baumgart is a German football manager..."
  = "Steffen Baumgart is a German football manager...".
Proof.
  split; [reflexivity|].
  destruct (alternative_client_same_guarantee
              (fun _ _ => Return (Some "  Steffen Baumgart is a German football manager... "))
              [] "Steffen Baumgart") as [H _].
  apply H. reflexivity.
Defined.

End ClientProps.

(** ** The console loop *)

Module ConsoleProps.
Import PyStr Chatbot Spec Scenario Console OrchestratorProps.

Lemma is_exit_nonempty (user_input : string) :
  is_exit user_input = true -> nonempty user_input = true.
Proof. now destruct user_input. Qed.

Lemma loop_at_exit (net : Services) (line : string) (rest : list string)
      (st : Session) :
  is_exit (strip line) = true ->
  question_loop net (line :: rest) st
  = mkRun [Ask "Your question: "; Print "I hope to see you soon. Goodbye!"] true st.
Proof.
  intros H. cbn [question_loop].
  now rewrite (is_exit_nonempty _ H), H.
Qed.

(** X23. The first exit word ends the loop: the lines after it are not
    read, whatever they are, and the run has ended. *)
Theorem nothing_is_read_after_exit
        (net : Services) (before after : list string) (line : string)
        (st : Session) :
  is_exit (strip line) = true ->
  question_loop net (before ++ line :: after) st
  = question_loop net (before ++ [line]) st /\
  exited (question_loop net (before ++ line :: after) st) = true.
Proof.
  intros H. revert st.
  induction before as [|l before IH]; intros st.
  - cbn [app]. now rewrite !(loop_at_exit net line _ st H).
  - cbn [app question_loop].
    destruct (nonempty (strip l)); cbn [negb].
    + destruct (is_exit (strip l)); [now split|].
      destruct (process_query net (strip l) st) as [answer st'].
      destruct (IH st') as [-> ->]. now split.
    + destruct (IH st) as [-> ->]. now split.
Qed.

Lemma nothing_is_read_after_exit_witness :
  question_loop quiet_services
    ["Who is coaching Berlin?"; "  QUIT "; "What about munich?"] ready
  = question_loop quiet_services ["Who is coaching Berlin?"; "  QUIT "] ready /\
  exited (question_loop quiet_services
            ["Who is coaching Berlin?"; "  QUIT "; "What about munich?"] ready)
  = true.
Proof.
  apply (nothing_is_read_after_exit quiet_services
           ["Who is coaching Berlin?"] ["What about munich?"] "  QUIT " ready).
  reflexivity.
Defined.

(** X24. A line of white space only is passed over: the session, the end
    of the run and everything printed are what they are without it. *)
Theorem blank_line_is_passed_over
        (net : Services) (before after : list string) (line : string)
        (st : Session) :
  strip line = "" ->
  session (question_loop net (before ++ line :: after) st)
  = session (question_loop net (before ++ after) st) /\
  exited (question_loop net (before ++ line :: after) st)
  = exited (question_loop net (before ++ after) st) /\
  filter (fun o => match o with Print _ => true | Ask _ => false end)
         (shown (question_loop net (before ++ line :: after) st))
  = filter (fun o => match o with Print _ => true | Ask _ => false end)
           (shown (question_loop net (before ++ after) st)).
Proof.
  intros H. revert st.
  induction before as [|l before IH]; intros st.
  - cbn [app]. cbn [question_loop]. rewrite H. cbn [nonempty negb].
    cbn [session exited shown filter]. auto.
  - cbn [app question_loop].
    destruct (nonempty (strip l)); cbn [negb].
    + destruct (is_exit (strip l)); [auto|].
      destruct (process_query net (strip l) st) as [answer st'].
      destruct (IH st') as (Hs & He & Hp).
      cbn [session exited shown]. repeat split; try assumption.
      cbn [filter]. rewrite !filter_app. now rewrite Hp.
    + destruct (IH st) as (Hs & He & Hp).
      cbn [session exited shown filter]. auto.
Qed.

Lemma blank_line_is_passed_over_witness :
  session (question_loop quiet_services
             ["Who is coaching Berlin?"; "   "; "What about munich?"] ready)
  = session (question_loop quiet_services
               ["Who is coaching Berlin?"; "What about munich?"] ready).
Proof.
  apply (blank_line_is_passed_over quiet_services
           ["Who is coaching Berlin?"] ["What about munich?"] "   " ready).
  reflexivity.
Defined.

(** The loop never writes the cache, keeps the requests sent before and
    adds at most two for a line. *)
Lemma loop_footprint (net : Services) (lines : list string) (st : Session) :
  clubs_cache (session (question_loop net lines st)) = clubs_cache st /\
  exists more,
    sent (session (question_loop net lines st)) = (sent st ++ more)%list /\
    List.length more <= 2 * List.length lines.
Proof.
  revert st. induction lines as [|l lines IH]; intros st.
  - cbn [question_loop session]. split; [reflexivity|].
    exists []. rewrite app_nil_r. split; [reflexivity | simpl; lia].
  - cbn [question_loop].
    destruct (nonempty (strip l)); cbn [negb].
    + destruct (is_exit (strip l)).
      * cbn [session]. split; [reflexivity|]. exists [].
        rewrite app_nil_r. split; [reflexivity | simpl; lia].
      * destruct (process_query_footprint net (strip l) st) as (Hc1 & m1 & Hs1 & Hl1).
        destruct (process_query net (strip l) st) as [answer st'].
        cbn [snd] in Hc1, Hs1. cbn [session].
        destruct (IH st') as (Hc & more & Hs & Hlen).
        rewrite Hc, Hs, Hc1, Hs1. split; [reflexivity|].
        exists (m1 ++ more)%list. rewrite <- app_assoc. split; [reflexivity|].
        rewrite length_app. simpl. lia.
    + cbn [session]. destruct (IH st) as (Hc & more & Hs & Hlen).
      split; [exact Hc|]. exists more. split; [exact Hs | simpl; lia].
Qed.

(** X25. Once a roster that is not empty was fetched, it is the cache for
    the whole run of [main], however many lines are typed; the request for
    the clubs is the first one, and a line adds at most two. *)
Theorem main_keeps_the_fetched_roster
        (net : Services) (lines : list string) (st : Session)
        (c : Club) (clubs : list Club) :
  get_bundesliga_clubs net (sent st) = Return (c :: clubs) ->
  clubs_cache (session (main net lines st)) = Some (c :: clubs) /\
  exists more,
    sent (session (main net lines st))
    = (sent st ++ GetBundesligaClubs :: more)%list /\
    List.length more <= 2 * List.length lines.
Proof.
  intros H. unfold main, initialize_clubs_data, try_except, bind, call, set_cache, ret.
  rewrite H. cbn [clubs_cache sent session].
  destruct (loop_footprint net lines
              (mkSession (Some (c :: clubs)) (sent st ++ [GetBundesligaClubs])))
    as (Hc & more & Hs & Hlen).
  cbn [clubs_cache sent] in Hc, Hs. split; [exact Hc|].
  exists more. rewrite Hs, <- app_assoc. now split.
Qed.

Lemma main_keeps_the_fetched_roster_witness :
  clubs_cache (session (main quiet_services
                             ["Who is coaching Berlin?"; ""; "q"]
                             (mkSession None [])))
  = Some [union_berlin; hamburger_sv; st_pauli].
Proof.
  apply (main_keeps_the_fetched_roster quiet_services
           ["Who is coaching Berlin?"; ""; "q"] (mkSession None [])
           union_berlin [hamburger_sv; st_pauli]).
  reflexivity.
Defined.

(** X26. When the clubs cannot be fetched, or none comes back, [main]
    prints the banner and the setup error and ends: it has sent the one
    request for the clubs, and what is typed plays no part. *)
Theorem main_ends_without_roster
        (net : Services) (lines : list string) (st : Session) :
  (forall c clubs, get_bundesliga_clubs net (sent st) <> Return (c :: clubs)) ->
  shown (main net lines st) = (banner ++ [setup_failure])%list /\
  exited (main net lines st) = true /\
  sent (session (main net lines st)) = (sent st ++ [GetBundesligaClubs])%list.
Proof.
  intros H. unfold main, initialize_clubs_data, try_except, bind, call, set_cache, ret.
  destruct (get_bundesliga_clubs net (sent st)) as [[|c clubs]|e] eqn:E;
    cbn [shown exited session sent clubs_cache]; auto.
  now destruct (H c clubs).
Qed.

Lemma main_ends_without_roster_witness :
  shown (main (mkServices (fun _ => Return [])
                          (get_coach_for_club quiet_services)
                          (get_coach_intro quiet_services))
              ["Who is coaching Berlin?"] (mkSession None []))
  = (banner ++ [setup_failure])%list.
Proof.
  apply (main_ends_without_roster
           (mkServices (fun _ => Return [])
                       (get_coach_for_club quiet_services)
                       (get_coach_intro quiet_services))
           ["Who is coaching Berlin?"] (mkSession None [])).
  intros c clubs. discriminate.
Defined.

End ConsoleProps.
